(** * dnssec-interference: the measurement engine of [src/dns-test.js]

    A shallow embedding of the second revision held in [src/dns-test.js]
    (the one with [COMMON_QUERIES], [computeKey] and the empty
    [dnsData] / [dnsAttempts] objects), followed by the properties of its
    key derivation, packet description, retry loops and final report.

    Conventions.
    - A JavaScript object used as a dictionary is a [gmap string _].
    - A property that an object literal leaves out reads [undefined]; it is
      an [option] that is [None].
    - Everything the add-on obtains from outside (the [dns-packet] encoder,
      [Math.random], the sockets, the resolver configuration) is a field of
      a [World]; the functions of the add-on are total functions of the
      world and of the mutable state they thread.
    - An [async] function that rejects is a function returning [Throw]. *)

From Stdlib Require Import QArith Qround.
From stdpp Require Import gmap strings list fin_maps.
From Stdlib Require Import Init.Byte.

Local Open Scope string_scope.
Local Open Scope Z_scope.

(** ** JavaScript values the add-on handles *)

Module JS.

(** A number held in [dnsAttempts].  The counters start absent and grow by
    one per round trip, and a run issues a few round trips per key, so
    their values are integers far below 2^53, where a double is an exact
    integer and [+ 1] is exact; the only other value that appears is
    [NaN]. *)
Inductive num : Type :=
| Num (z : Z)
| NaN.

#[global] Instance num_eq_dec : EqDecision num.
Proof. solve_decision. Defined.

(** [x + 1] where [x] was read from an object: [undefined + 1] and
    [NaN + 1] are both [NaN].  On a number it is the integer successor,
    which is what the double addition gives below 2^53; from 2^53 on the
    double addition rounds and this function does not describe it. *)
Definition add1 (x : option num) : num :=
  match x with
  | Some (Num z) => Num (z + 1)
  | Some NaN => NaN
  | None => NaN
  end.

(** [ToBoolean] of a number read from an object: [undefined], [0] and
    [NaN] are falsy. *)
Definition truthy_num (x : option num) : bool :=
  match x with
  | Some (Num z) => negb (z =? 0)
  | Some NaN => false
  | None => false
  end.

(** What [dnsData] stores: [response.addresses] (an array of strings) on
    the WebExtensions path, [Array.from(responseBytes)] on the socket
    paths.  Both are arrays, and every array, even an empty one, is
    truthy. *)
Inductive arr : Type :=
| Addresses (l : list string)
| Bytes (l : list byte).

Definition truthy_arr (x : option arr) : bool :=
  match x with
  | Some _ => true
  | None => false
  end.

(** [b == n] for a boolean [b] and a number [n]: the boolean is converted
    with [ToNumber] ([true] is 1, [false] is 0) and compared. *)
Definition bool_loose_eq (b : bool) (n : Z) : bool :=
  (if b then 1 else 0) =? n.

(** [ToBoolean] of an optional boolean property. *)
Definition truthy_flag (x : option bool) : bool :=
  match x with
  | Some b => b
  | None => false
  end.

End JS.

(** ** Constants *)

Definition APEX_DOMAIN_NAME : string := "dnssec-experiment-moz.net".
Definition SMIMEA_PREFIX : string :=
  "9f86d081884c7d659a2feaa0c55ad015a3bf4f1b2b0b822cd15d6c15.".
Definition HTTPS_PREFIX : string := "httpssvc.".
Definition PER_CLIENT_PREFIX : string := "pc.".

Definition RESOLVCONF_ATTEMPTS : nat := 2.

Definition STUDY_START := "STUDY_START".
Definition STUDY_MEASUREMENT_COMPLETED := "STUDY_MEASUREMENT_COMPLETED".
Definition STUDY_ERROR_UDP_WEBEXT := "STUDY_ERROR_UDP_WEBEXT".
Definition STUDY_ERROR_UDP_MISC := "STUDY_ERROR_UDP_MISC".
Definition STUDY_ERROR_TCP_MISC := "STUDY_ERROR_TCP_MISC".
Definition STUDY_ERROR_UDP_ENCODE := "STUDY_ERROR_UDP_ENCODE".
Definition STUDY_ERROR_TCP_ENCODE := "STUDY_ERROR_TCP_ENCODE".
Definition STUDY_ERROR_NAMESERVERS_OS_NOT_SUPPORTED :=
  "STUDY_ERROR_NAMESERVERS_OS_NOT_SUPPORTED".
Definition STUDY_ERROR_NAMESERVERS_NOT_FOUND := "STUDY_ERROR_NAMESERVERS_NOT_FOUND".
Definition STUDY_ERROR_NAMESERVERS_INVALID_ADDR :=
  "STUDY_ERROR_NAMESERVERS_INVALID_ADDR".
Definition STUDY_ERROR_NAMESERVERS_MISC := "STUDY_ERROR_NAMESERVERS_MISC".
Definition STUDY_ERROR_CAPTIVE_PORTAL_FAILED := "STUDY_ERROR_CAPTIVE_PORTAL_FAILED".

Definition MAX_TXID : Z := 65535.
Definition MIN_TXID : Z := 0.
Definition UDP_PAYLOAD_SIZE : Z := 4096.

(** The flag constants exported by the [dns-packet] library. *)
Module DNS_PACKET.
Definition RECURSION_DESIRED : Z := Z.shiftl 1 8.
Definition CHECKING_DISABLED : Z := Z.shiftl 1 4.
Definition DNSSEC_OK : Z := Z.shiftl 1 15.
End DNS_PACKET.

(** ** The query catalog *)

(** One entry of [COMMON_QUERIES].  Only one entry spells [noedns0] out; in
    the others the property is absent. *)
Record Query : Type := mkQuery {
  rrtype : string;
  prefix : string;
  dnssec_ok : bool;
  checking_disabled : bool;
  noedns0 : option bool
}.

#[global] Instance Query_eq_dec : EqDecision Query.
Proof. solve_decision. Defined.

Definition COMMON_QUERIES : list Query := [
  mkQuery "SMIMEA" SMIMEA_PREFIX false false None;
  mkQuery "HTTPS" HTTPS_PREFIX false false None;
  mkQuery "A" "" false false None;
  mkQuery "A" "" false false (Some true);
  mkQuery "A" "" false true None;
  mkQuery "A" "" true false None;
  mkQuery "A" "" true true None;
  mkQuery "DNSKEY" "" false false None;
  mkQuery "RRSIG" "" false false None;
  mkQuery "NEWONE" "" false false None;
  mkQuery "NEWTWO" "" false false None;
  mkQuery "NEWTHREE" "" false false None;
  mkQuery "NEWFOUR" "" false false None
].

(** ** Key derivation *)

(** [computeKey(transport, args, perClient)]: the running [tmp += ...]. *)
Definition computeKey (transport : string) (args : Query) (perClient : bool)
  : string :=
  let tmp := transport ++ rrtype args in
  let tmp := if dnssec_ok args then tmp ++ "DO" else tmp in
  let tmp := if checking_disabled args then tmp ++ "CD" else tmp in
  let tmp := if perClient then tmp ++ "-U" else tmp in
  let tmp := if JS.truthy_flag (noedns0 args) then tmp ++ "-N" else tmp in
  tmp.

(** The key derivation as the specification words it: the transport token,
    the rrtype token, then each suffix in turn when its flag is set. *)
Definition computeKey_spec (transport : string) (args : Query)
  (perClient : bool) : string :=
  transport ++ rrtype args
    ++ (if dnssec_ok args then "DO" else "")
    ++ (if checking_disabled args then "CD" else "")
    ++ (if perClient then "-U" else "")
    ++ (if JS.truthy_flag (noedns0 args) then "-N" else "").

(** ** Packet descriptions handed to [dns-packet] *)

Record Question : Type := mkQuestion {
  q_type : string;
  q_name : string
}.

(** An entry of [additionals]; the add-on only ever builds OPT records.
    [udpPayloadSize] and [flags] are left out of some literals. *)
Record Additional : Type := mkAdditional {
  a_type : string;
  a_name : string;
  udpPayloadSize : option Z;
  a_flags : option Z
}.

Record Packet : Type := mkPacket {
  p_type : string;
  p_id : Z;
  p_flags : Z;
  questions : list Question;
  additionals : option (list Additional)   (* [None] is [null] *)
}.

#[global] Instance Question_eq_dec : EqDecision Question.
Proof. solve_decision. Defined.
#[global] Instance Additional_eq_dec : EqDecision Additional.
Proof. solve_decision. Defined.
#[global] Instance Packet_eq_dec : EqDecision Packet.
Proof. solve_decision. Defined.

(** The object [encodeUDPQuery] passes to [DNS_PACKET.encode], for the
    transaction id [id] it drew. *)
Definition udpPacket (domain rrtype : string) (dnssec_ok checking_disabled : bool)
  (noedns0 : option bool) (id : Z) : Packet :=
  let type := "query" in
  let flags := DNS_PACKET.RECURSION_DESIRED in
  let questions := [mkQuestion rrtype domain] in
  let additionals :=
    if JS.truthy_flag noedns0 then []
    else [mkAdditional "OPT" "." (Some UDP_PAYLOAD_SIZE) None] in
  let flags :=
    if checking_disabled then Z.lor flags DNS_PACKET.CHECKING_DISABLED
    else flags in
  let additionals :=
    if dnssec_ok
    then [mkAdditional "OPT" "." (Some UDP_PAYLOAD_SIZE)
            (Some DNS_PACKET.DNSSEC_OK)]
    else additionals in
  mkPacket type id flags questions (Some additionals).

(** The object [encodeTCPQuery] passes to [DNS_PACKET.streamEncode]. *)
Definition tcpPacket (domain rrtype : string) (dnssec_ok checking_disabled : bool)
  (id : Z) : Packet :=
  let type := "query" in
  let flags := DNS_PACKET.RECURSION_DESIRED in
  let questions := [mkQuestion rrtype domain] in
  let additionals := None in
  let flags :=
    if checking_disabled then Z.lor flags DNS_PACKET.CHECKING_DISABLED
    else flags in
  let additionals :=
    if dnssec_ok
    then Some [mkAdditional "OPT" "." None (Some DNS_PACKET.DNSSEC_OK)]
    else additionals in
  mkPacket type id flags questions additionals.

(** ** The outside world and the mutable state *)

(** What an awaited call to the outside gives back: a value, or a rejection
    with the [message] of the error it carries. *)
Inductive Outcome (A : Type) : Type :=
| Resolved (a : A)
| Rejected (message : string).
Arguments Resolved {A} a.
Arguments Rejected {A} message.

(** What a function of the add-on gives back: it returns, or it throws
    [new Error(message)]. *)
Inductive Result (A : Type) : Type :=
| Ret (a : A)
| Throw (message : string).
Arguments Ret {A} a.
Arguments Throw {A} message.

(** The collaborators.  Round trips and random draws are indexed by how
    many came before, so that a world fixes one whole schedule of answers. *)
Record World : Type := mkWorld {
  (** [DNS_PACKET.encode]; [None] when it throws. *)
  encode : Packet -> option (list byte);
  (** [DNS_PACKET.streamEncode]; [None] when it throws. *)
  streamEncode : Packet -> option (list byte);
  (** The k-th [Math.random()], a number in [[0, 1)]. *)
  random : nat -> Q;
  (** [browser.dns.resolve(domain, flags)], as the k-th round trip; the
      value is [response.addresses]. *)
  dns_resolve : nat -> string -> Outcome (list string);
  (** [browser.experiments.udpsocket.sendDNSQuery(nameserver, buf, rrtype)]. *)
  udp_sendDNSQuery : nat -> string -> list byte -> string -> Outcome (list byte);
  (** [browser.experiments.tcpsocket.sendDNSQuery(nameserver, buf)]. *)
  tcp_sendDNSQuery : nat -> string -> list byte -> Outcome (list byte);
  (** [(await browser.runtime.getPlatformInfo()).os]. *)
  getPlatformInfo : Outcome string;
  readNameserversMac : Outcome (list string);
  readNameserversWin : Outcome (list string);
  (** [IP_REGEX({exact: true}).test]. *)
  ip_valid : string -> bool
}.

Definition random_ok (W : World) : Prop :=
  ∀ k, (0 <= random W k)%Q ∧ (random W k < 1)%Q.

(** A value stored under a field of a telemetry payload. *)
Inductive pval : Type :=
| PUndefined
| PStr (s : string)
| PNum (n : JS.num)
| PData (d : gmap string JS.arr)
| PAttempts (a : gmap string JS.num).

Definition pval_of_num (x : option JS.num) : pval :=
  match x with
  | Some n => PNum n
  | None => PUndefined
  end.

Definition pval_of_str (x : option string) : pval :=
  match x with
  | Some s => PStr s
  | None => PUndefined
  end.

(** One round trip issued for a key, with how it ended (a record kept for
    the proofs; the add-on does not store it). *)
Record Event : Type := mkEvent {
  ev_key : string;
  ev_target : string;
  ev_result : Outcome JS.arr
}.

(** The module-level variables, the pings handed to
    [browser.telemetry.submitPing], and the two indices into the world. *)
Record State : Type := mkState {
  measurementID : option string;
  dnsData : gmap string JS.arr;
  dnsAttempts : gmap string JS.num;
  pings : list (gmap string pval);
  trace : list Event;
  draws : nat
}.

(** The state when the script has been loaded: [var measurementID;],
    [var dnsData = {};], [var dnsAttempts = {};]. *)
Definition initial_state : State := mkState None ∅ ∅ [] [] 0.

Definition set_dnsData (d : gmap string JS.arr) (st : State) : State :=
  mkState (measurementID st) d (dnsAttempts st) (pings st) (trace st) (draws st).
Definition set_dnsAttempts (a : gmap string JS.num) (st : State) : State :=
  mkState (measurementID st) (dnsData st) a (pings st) (trace st) (draws st).
Definition submitPing (p : gmap string pval) (st : State) : State :=
  mkState (measurementID st) (dnsData st) (dnsAttempts st) (pings st ++ [p])
    (trace st) (draws st).
Definition record_event (e : Event) (st : State) : State :=
  mkState (measurementID st) (dnsData st) (dnsAttempts st) (pings st)
    (trace st ++ [e]) (draws st).
Definition next_draw (st : State) : State :=
  mkState (measurementID st) (dnsData st) (dnsAttempts st) (pings st)
    (trace st) (S (draws st)).

(** [sendTelemetry(payload)]: stamp the payload with the run identifier and
    submit it. *)
Definition sendTelemetry (payload : gmap string pval) (st : State) : State :=
  let payload := <["measurementID" := pval_of_str (measurementID st)]> payload in
  submitPing payload st.

(** [dnsAttempts[key] += 1]. *)
Definition bump_plain (key : string) (st : State) : State :=
  set_dnsAttempts (<[key := JS.add1 (dnsAttempts st !! key)]> (dnsAttempts st)) st.

(** [if (!dnsAttempts[key]) { dnsAttempts[key] = 0; } dnsAttempts[key] += 1;] *)
Definition bump_guarded (key : string) (st : State) : State :=
  let st :=
    if negb (JS.truthy_num (dnsAttempts st !! key))
    then set_dnsAttempts (<[key := JS.Num 0]> (dnsAttempts st)) st
    else st in
  bump_plain key st.

(** The payload of a failed round trip. *)
Definition error_payload (errorReason key : string) (st : State)
  : gmap string pval :=
  <["errorAttempt" := pval_of_num (dnsAttempts st !! key)]>
    (<["errorRRTYPE" := PStr key]> {["reason" := PStr errorReason]}).

(** ** Encoders *)

(** [Math.floor(Math.random() * (MAX_TXID - MIN_TXID + 1)) + MIN_TXID] *)
Definition txid (W : World) (st : State) : Z :=
  Qfloor (random W (draws st) * inject_Z (MAX_TXID - MIN_TXID + 1)) + MIN_TXID.

Definition encodeUDPQuery (W : World) (domain rrtype : string)
  (dnssec_ok checking_disabled : bool) (noedns0 : option bool) (st : State)
  : option (list byte) * State :=
  let id := txid W st in
  (encode W (udpPacket domain rrtype dnssec_ok checking_disabled noedns0 id),
   next_draw st).

Definition encodeTCPQuery (W : World) (domain rrtype : string)
  (dnssec_ok checking_disabled : bool) (st : State)
  : option (list byte) * State :=
  let id := txid W st in
  (streamEncode W (tcpPacket domain rrtype dnssec_ok checking_disabled id),
   next_draw st).

(** ** Senders *)

(** [sendUDPWebExtQuery(domain)].  The guard is [!dnsData[key] == 0]: the
    negation binds first and its boolean is then compared with [0]. *)
Definition sendUDPWebExtQuery (W : World) (domain : string) (st : State)
  : State * Result unit :=
  let key := "udpAWebExt" in
  let st := bump_plain key st in
  match dns_resolve W (length (trace st)) domain with
  | Resolved addresses =>
      let st := record_event (mkEvent key domain (Resolved (JS.Addresses addresses))) st in
      let st :=
        if JS.bool_loose_eq (negb (JS.truthy_arr (dnsData st !! key))) 0
        then set_dnsData (<[key := JS.Addresses addresses]> (dnsData st)) st
        else st in
      (st, Ret tt)
  | Rejected message =>
      let st := record_event (mkEvent key domain (Rejected message)) st in
      let errorReason := STUDY_ERROR_UDP_WEBEXT in
      (sendTelemetry (error_payload errorReason key st) st, Ret tt)
  end.

(** One pass of [for (let nameserver of nameservers)] inside
    [sendUDPQuery]; the boolean tells whether the function returned from
    inside the loop. *)
Fixpoint udp_pass (W : World) (key : string) (queryBuf : list byte)
  (rrtype : string) (nameservers : list string) (st : State) : State * bool :=
  match nameservers with
  | [] => (st, false)
  | nameserver :: rest =>
      let st := bump_plain key st in
      match udp_sendDNSQuery W (length (trace st)) nameserver queryBuf rrtype with
      | Resolved responseBytes =>
          let st := record_event
                      (mkEvent key nameserver (Resolved (JS.Bytes responseBytes))) st in
          let st :=
            if negb (JS.truthy_arr (dnsData st !! key))
            then set_dnsData (<[key := JS.Bytes responseBytes]> (dnsData st)) st
            else st in
          (st, true)
      | Rejected message =>
          let st := record_event (mkEvent key nameserver (Rejected message)) st in
          let errorReason :=
            if String.prefix "STUDY_ERROR_UDP" message then message
            else STUDY_ERROR_UDP_MISC in
          udp_pass W key queryBuf rrtype rest
            (sendTelemetry (error_payload errorReason key st) st)
      end
  end.

(** [for (let i = 1; i <= RESOLVCONF_ATTEMPTS; i++)], with [n] iterations
    left. *)
Fixpoint udp_passes (W : World) (key : string) (queryBuf : list byte)
  (rrtype : string) (nameservers : list string) (n : nat) (st : State) : State :=
  match n with
  | O => st
  | S n' =>
      let '(st, returned) := udp_pass W key queryBuf rrtype nameservers st in
      if returned then st
      else udp_passes W key queryBuf rrtype nameservers n' st
  end.

Definition sendUDPQuery (W : World) (key domain : string) (query : Query)
  (nameservers : list string) (st : State) : State * Result unit :=
  let '(queryBuf, st) :=
    encodeUDPQuery W domain (rrtype query) (dnssec_ok query)
      (checking_disabled query) (noedns0 query) st in
  match queryBuf with
  | None =>
      (sendTelemetry {["reason" := PStr STUDY_ERROR_UDP_ENCODE]} st,
       Throw STUDY_ERROR_UDP_ENCODE)
  | Some queryBuf =>
      (udp_passes W key queryBuf (rrtype query) nameservers RESOLVCONF_ATTEMPTS st,
       Ret tt)
  end.

(** The loop of [sendTCPQuery]. *)
Fixpoint tcp_pass (W : World) (key : string) (queryBuf : list byte)
  (nameservers : list string) (st : State) : State :=
  match nameservers with
  | [] => st
  | nameserver :: rest =>
      let st := bump_guarded key st in
      match tcp_sendDNSQuery W (length (trace st)) nameserver queryBuf with
      | Resolved responseBytes =>
          let st := record_event
                      (mkEvent key nameserver (Resolved (JS.Bytes responseBytes))) st in
          if negb (JS.truthy_arr (dnsData st !! key))
          then set_dnsData (<[key := JS.Bytes responseBytes]> (dnsData st)) st
          else st
      | Rejected message =>
          let st := record_event (mkEvent key nameserver (Rejected message)) st in
          let errorReason :=
            if String.prefix "STUDY_ERROR_TCP" message then message
            else STUDY_ERROR_TCP_MISC in
          tcp_pass W key queryBuf rest
            (sendTelemetry (error_payload errorReason key st) st)
      end
  end.

Definition sendTCPQuery (W : World) (key domain : string) (query : Query)
  (nameservers : list string) (st : State) : State * Result unit :=
  let '(queryBuf, st) :=
    encodeTCPQuery W domain (rrtype query) (dnssec_ok query)
      (checking_disabled query) st in
  match queryBuf with
  | None =>
      (sendTelemetry {["reason" := PStr STUDY_ERROR_TCP_ENCODE]} st,
       Throw STUDY_ERROR_TCP_ENCODE)
  | Some queryBuf => (tcp_pass W key queryBuf nameservers st, Ret tt)
  end.

(** ** The orchestrator *)

(** A closure pushed on [queries] by [sendQueries]; the nameserver list it
    captures is the same for all of them and is passed when it runs. *)
Inductive WorkItem : Type :=
| WebExtItem (domain : string)
| UDPItem (key domain : string) (query : Query)
| TCPItem (key domain : string) (query : Query).

#[global] Instance WorkItem_eq_dec : EqDecision WorkItem.
Proof. solve_decision. Defined.

Definition item_key (it : WorkItem) : string :=
  match it with
  | WebExtItem _ => "udpAWebExt"
  | UDPItem key _ _ => key
  | TCPItem key _ _ => key
  end.

Definition item_domain (it : WorkItem) : string :=
  match it with
  | WebExtItem domain => domain
  | UDPItem _ domain _ => domain
  | TCPItem _ domain _ => domain
  end.

(** The four pushes of one iteration of [for (let query of COMMON_QUERIES)]. *)
Definition query_items (query : Query) : list WorkItem :=
  let queryName := prefix query ++ APEX_DOMAIN_NAME in
  let keyU := computeKey "udp" query true in
  let queryNameU := prefix query ++ keyU ++ "." ++ PER_CLIENT_PREFIX ++ APEX_DOMAIN_NAME in
  let keyT := computeKey "tcp" query true in
  let queryNameT := prefix query ++ keyU ++ "." ++ PER_CLIENT_PREFIX ++ APEX_DOMAIN_NAME in
  [ UDPItem (computeKey "udp" query false) queryName query;
    TCPItem (computeKey "tcp" query false) queryName query;
    UDPItem keyU queryNameU query;
    TCPItem keyT queryNameT query ].

(** [queries] just before it is shuffled. *)
Definition build_queries : list WorkItem :=
  WebExtItem APEX_DOMAIN_NAME :: flat_map query_items COMMON_QUERIES.

(** [[array[i], array[j]] = [array[j], array[i]]].  Both indices are below
    the length whenever the draws are in [[0, 1)]; outside that the array is
    left as it is. *)
Definition swap {A : Type} (array : list A) (i j : nat) : list A :=
  match array !! i, array !! j with
  | Some x, Some y => <[j := x]> (<[i := y]> array)
  | _, _ => array
  end.

(** [Math.floor(Math.random() * currentIndex)] for the k-th draw. *)
Definition random_index (W : World) (k currentIndex : nat) : nat :=
  Z.to_nat (Qfloor (random W k * inject_Z (Z.of_nat currentIndex))).

(** The [while (currentIndex != 0)] loop of [shuffleArray]. *)
Fixpoint shuffle_loop {A : Type} (W : World) (currentIndex : nat)
  (array : list A) (k : nat) : list A * nat :=
  match currentIndex with
  | O => (array, k)
  | S c =>
      let randomIndex := random_index W k currentIndex in
      shuffle_loop W c (swap array c randomIndex) (S k)
  end.

Definition shuffleArray {A : Type} (W : World) (array : list A) (st : State)
  : list A * State :=
  let '(array, k) := shuffle_loop W (length array) array (draws st) in
  (array,
   mkState (measurementID st) (dnsData st) (dnsAttempts st) (pings st)
     (trace st) k).

Definition run_item (W : World) (nameservers : list string) (it : WorkItem)
  (st : State) : State * Result unit :=
  match it with
  | WebExtItem domain => sendUDPWebExtQuery W domain st
  | UDPItem key domain query => sendUDPQuery W key domain query nameservers st
  | TCPItem key domain query => sendTCPQuery W key domain query nameservers st
  end.

(** [for (let sendQuery of queries) { await sendQuery(); }]: a rejection
    leaves the loop and the function. *)
Fixpoint run_queries (W : World) (nameservers : list string)
  (queries : list WorkItem) (st : State) : State * Result unit :=
  match queries with
  | [] => (st, Ret tt)
  | sendQuery :: rest =>
      match run_item W nameservers sendQuery st with
      | (st, Ret _) => run_queries W nameservers rest st
      | (st, Throw message) => (st, Throw message)
      end
  end.

Definition sendQueries (W : World) (nameservers_ipv4 : list string) (st : State)
  : State * Result unit :=
  let queries := build_queries in
  let '(queries, st) := shuffleArray W queries st in
  run_queries W nameservers_ipv4 queries st.

(** The [try] block of [readNameservers]. *)
Definition readNameservers_try (W : World) (st : State)
  : State * Result (list string) :=
  match getPlatformInfo W with
  | Rejected message => (st, Throw message)
  | Resolved os =>
      if String.eqb os "mac" then
        match readNameserversMac W with
        | Resolved nameservers => (st, Ret nameservers)
        | Rejected message => (st, Throw message)
        end
      else if String.eqb os "win" then
        match readNameserversWin W with
        | Resolved nameservers => (st, Ret nameservers)
        | Rejected message => (st, Throw message)
        end
      else
        (sendTelemetry {["reason" := PStr STUDY_ERROR_NAMESERVERS_OS_NOT_SUPPORTED]} st,
         Throw STUDY_ERROR_NAMESERVERS_OS_NOT_SUPPORTED)
  end.

Definition readNameservers (W : World) (st : State)
  : State * Result (list string) :=
  match readNameservers_try W st with
  | (st, Throw message) =>
      let errorReason :=
        if String.prefix "STUDY_ERROR_NAMESERVERS" message then message
        else STUDY_ERROR_NAMESERVERS_MISC in
      (sendTelemetry {["reason" := PStr errorReason]} st, Throw errorReason)
  | (st, Ret nameservers) =>
      if (length nameservers =? 0)%nat then
        (sendTelemetry {["reason" := PStr STUDY_ERROR_NAMESERVERS_NOT_FOUND]} st,
         Throw STUDY_ERROR_NAMESERVERS_NOT_FOUND)
      else if forallb (ip_valid W) nameservers then (st, Ret nameservers)
      else
        (sendTelemetry {["reason" := PStr STUDY_ERROR_NAMESERVERS_INVALID_ADDR]} st,
         Throw STUDY_ERROR_NAMESERVERS_INVALID_ADDR)
  end.

(** [fetchTest()]: its body is commented out in this revision. *)
Definition fetchTest (st : State) : State * Result unit := (st, Ret tt).

(** The payload [runMeasurement] builds once the sweep is over. *)
Definition completed_payload (st : State) : gmap string pval :=
  let payload := {["reason" := PStr STUDY_MEASUREMENT_COMPLETED]} in
  let payload := <["dnsData" := PData (dnsData st)]> payload in
  let payload := <["dnsAttempts" := PAttempts (dnsAttempts st)]> payload in
  payload.

(** [runMeasurement(details)], given [details.status]. *)
Definition runMeasurement (W : World) (captiveStatus : string) (st : State)
  : State * Result unit :=
  if negb (String.eqb captiveStatus "unlocked_portal")
     && negb (String.eqb captiveStatus "not_captive")
     && negb (String.eqb captiveStatus "clear")
  then
    (sendTelemetry {["reason" := PStr STUDY_ERROR_CAPTIVE_PORTAL_FAILED]} st,
     Throw STUDY_ERROR_CAPTIVE_PORTAL_FAILED)
  else
    match fetchTest st with
    | (st, Throw message) => (st, Throw message)
    | (st, Ret _) =>
        let st := sendTelemetry {["reason" := PStr STUDY_START]} st in
        match readNameservers W st with
        | (st, Throw message) => (st, Throw message)
        | (st, Ret nameservers_ipv4) =>
            match sendQueries W nameservers_ipv4 st with
            | (st, Throw message) => (st, Throw message)
            | (st, Ret _) =>
                let payload := completed_payload st in
                match fetchTest st with
                | (st, Throw message) => (st, Throw message)
                | (st, Ret _) => (sendTelemetry payload st, Ret tt)
                end
            end
        end
    end.

(** ** Concrete catalog entries and worlds used in examples *)

(** The plain A entry and the A entry that asks for no EDNS0. *)
Definition query_A : Query := mkQuery "A" "" false false None.
Definition query_A_noedns0 : Query := mkQuery "A" "" false false (Some true).

Definition transports : list string := ["udp"; "tcp"].

(** Every (variant, transport, perClient) triple of the expansion. *)
Definition catalog_triples : list (Query * string * bool) :=
  v ← COMMON_QUERIES; t ← transports; p ← [false; true]; [(v, t, p)].

Definition triple_key (x : Query * string * bool) : string :=
  computeKey x.1.2 x.1.1 x.2.

(** Whether a packet description carries an OPT pseudo-record, and whether
    an OPT record has the DNSSEC-OK bit (bit 15 of its flags) set. *)
Definition opt_records (p : Packet) : list Additional :=
  filter (λ a, a_type a = "OPT") (default [] (additionals p)).

Definition has_opt (p : Packet) : bool :=
  bool_decide (opt_records p ≠ []).

Definition do_bit (a : Additional) : bool :=
  Z.testbit (default 0 (a_flags a)) 15.


(** ** What the trace says about a key *)

Definition is_success (e : Event) : bool :=
  match ev_result e with
  | Resolved _ => true
  | Rejected _ => false
  end.

(** The answer of the chronologically first successful round trip issued
    for [key]. *)
Fixpoint first_success (key : string) (evs : list Event) : option JS.arr :=
  match evs with
  | [] => None
  | e :: rest =>
      if decide (ev_key e = key) then
        match ev_result e with
        | Resolved a => Some a
        | Rejected _ => first_success key rest
        end
      else first_success key rest
  end.

(** How many round trips were issued for [key]. *)
Definition attempts_issued (key : string) (evs : list Event) : nat :=
  length (filter (λ e, ev_key e = key) evs).

(** [dnsData] holds, under every key, the first successful answer. *)
Definition data_inv (st : State) : Prop :=
  ∀ key, dnsData st !! key = first_success key (trace st).

(** [dnsAttempts] holds, under every key, the number of round trips issued
    for it, and no entry when there was none. *)
Definition counts_inv (st : State) : Prop :=
  ∀ key,
    dnsAttempts st !! key
    = if (attempts_issued key (trace st) =? 0)%nat then None
      else Some (JS.Num (Z.of_nat (attempts_issued key (trace st)))).

(** The round trips of one work item: failures, then at most one success,
    which ends the item. *)
Inductive sweep_events : list Event → Prop :=
| sweep_nil : sweep_events []
| sweep_success e : is_success e = true → sweep_events [e]
| sweep_failure e evs :
    is_success e = false → sweep_events evs → sweep_events (e :: evs).

(** ** Encoding of a work item *)

(** Whether the encoder accepts the packet of the item in state [st]. *)
Definition item_encodes (W : World) (it : WorkItem) (st : State) : bool :=
  match it with
  | WebExtItem _ => true
  | UDPItem _ domain query =>
      bool_decide (is_Some (encode W
        (udpPacket domain (rrtype query) (dnssec_ok query)
           (checking_disabled query) (noedns0 query) (txid W st))))
  | TCPItem _ domain query =>
      bool_decide (is_Some (streamEncode W
        (tcpPacket domain (rrtype query) (dnssec_ok query)
           (checking_disabled query) (txid W st))))
  end.

(** The reason reported when the encoder rejects the item. *)
Definition encode_error (it : WorkItem) : string :=
  match it with
  | WebExtItem _ => ""
  | UDPItem _ _ _ => STUDY_ERROR_UDP_ENCODE
  | TCPItem _ _ _ => STUDY_ERROR_TCP_ENCODE
  end.

Definition captive_ok (captiveStatus : string) : bool :=
  String.eqb captiveStatus "unlocked_portal"
  || String.eqb captiveStatus "not_captive"
  || String.eqb captiveStatus "clear".

Definition is_completed (p : gmap string pval) : bool :=
  match p !! "reason" with
  | Some (PStr reason) => String.eqb reason STUDY_MEASUREMENT_COMPLETED
  | _ => false
  end.

(** ** Example worlds *)

Definition two_nameservers : list string := ["10.0.0.1"; "10.0.0.2"].

(** Every collaborator answers. *)
Definition world_ok : World :=
  mkWorld (λ _, Some [x00%byte]) (λ _, Some [x00%byte; x00%byte]) (λ _, 0%Q)
    (λ _ _, Resolved ["34.120.4.181"])
    (λ _ _ _ _, Resolved [x01%byte; x02%byte; x03%byte])
    (λ _ _ _, Resolved [x01%byte; x02%byte; x03%byte])
    (Resolved "win") (Rejected "not a mac") (Resolved two_nameservers)
    (λ _, true).

(** The UDP socket fails for the first nameserver only. *)
Definition world_udp_retry : World :=
  mkWorld (λ _, Some [x00%byte]) (λ _, Some [x00%byte; x00%byte]) (λ _, 0%Q)
    (λ _ _, Resolved ["34.120.4.181"])
    (λ _ nameserver _ _,
       if String.eqb nameserver "10.0.0.1" then Rejected "timed out"
       else Resolved [x01%byte; x02%byte; x03%byte])
    (λ _ _ _, Resolved [x01%byte; x02%byte; x03%byte])
    (Resolved "win") (Rejected "not a mac") (Resolved two_nameservers)
    (λ _, true).

(** The UDP encoder throws on questions of type NEWONE. *)
Definition world_encode_fails : World :=
  mkWorld
    (λ p, if bool_decide (q_type <$> questions p = ["NEWONE"]) then None
          else Some [x00%byte])
    (λ _, Some [x00%byte; x00%byte]) (λ _, 0%Q)
    (λ _ _, Resolved ["34.120.4.181"])
    (λ _ _ _ _, Resolved [x01%byte; x02%byte; x03%byte])
    (λ _ _ _, Resolved [x01%byte; x02%byte; x03%byte])
    (Resolved "win") (Rejected "not a mac") (Resolved two_nameservers)
    (λ _, true).

(** ** The entry point *)

Definition STUDY_ERROR_CAPTIVE_PORTAL_API_DISABLED :=
  "STUDY_ERROR_CAPTIVE_PORTAL_API_DISABLED".
Definition STUDY_ERROR_TELEMETRY_CANT_UPLOAD := "STUDY_ERROR_TELEMETRY_CANT_UPLOAD".

(** What [main] asks of the outside before a measurement starts. *)
Record Startup : Type := mkStartup {
  (** [uuidv4()]. *)
  uuidv4 : string;
  (** [await browser.telemetry.canUpload()]. *)
  canUpload : bool;
  (** [await browser.captivePortal.getState()]. *)
  getState : Outcome string
}.

(** How [main] ends: it returns or throws, or it returns having registered
    the connectivity listener. *)
Inductive MainResult : Type :=
| Finished (r : Result unit)
| Listening.

Definition set_measurementID (id : string) (st : State) : State :=
  mkState (Some id) (dnsData st) (dnsAttempts st) (pings st) (trace st)
    (draws st).

(** [main()]. *)
Definition main (B : Startup) (W : World) (st : State) : State * MainResult :=
  let st := set_measurementID (uuidv4 B) st in
  if negb (canUpload B) then
    (st, Finished (Throw STUDY_ERROR_TELEMETRY_CANT_UPLOAD))
  else
    match getState B with
    | Rejected _ =>
        (sendTelemetry
           {["reason" := PStr STUDY_ERROR_CAPTIVE_PORTAL_API_DISABLED]} st,
         Finished (Throw STUDY_ERROR_CAPTIVE_PORTAL_API_DISABLED))
    | Resolved captiveStatus =>
        if String.eqb captiveStatus "unlocked_portal"
           || String.eqb captiveStatus "not_captive"
        then
          let '(st, r) := runMeasurement W captiveStatus st in
          (st, Finished r)
        else (st, Listening)
    end.

(** The listener [main] registers, called with [details.status]: it removes
    itself and starts the measurement. *)
Definition listener (W : World) (status : string) (st : State)
  : State * Result unit :=
  runMeasurement W status st.

(** The tag of the error vocabulary of the transport of a work item. *)
Definition item_tag (it : WorkItem) : string :=
  match it with
  | WebExtItem _ => "STUDY_ERROR_UDP"
  | UDPItem _ _ _ => "STUDY_ERROR_UDP"
  | TCPItem _ _ _ => "STUDY_ERROR_TCP"
  end.

Definition is_socket_item (it : WorkItem) : bool :=
  match it with
  | WebExtItem _ => false
  | UDPItem _ _ _ => true
  | TCPItem _ _ _ => true
  end.

(** Every round trip of the world is rejected. *)
Definition all_rejected (W : World) : Prop :=
  (∀ k domain, ∃ m, dns_resolve W k domain = Rejected m)
  ∧ (∀ k ns buf rrtype, ∃ m, udp_sendDNSQuery W k ns buf rrtype = Rejected m)
  ∧ (∀ k ns buf, ∃ m, tcp_sendDNSQuery W k ns buf = Rejected m).

(** The platform is one of the two supported ones and its resolver
    configuration gives the non-empty list [nameservers] of valid
    addresses. *)
Definition nameservers_available (W : World) (nameservers : list string)
  : Prop :=
  (getPlatformInfo W = Resolved "mac"
   ∧ readNameserversMac W = Resolved nameservers
   ∨ getPlatformInfo W = Resolved "win"
     ∧ readNameserversWin W = Resolved nameservers)
  ∧ nameservers ≠ []
  ∧ forallb (ip_valid W) nameservers = true.

(** Neither encoder ever throws. *)
Definition encoders_total (W : World) : Prop :=
  (∀ p, is_Some (encode W p)) ∧ (∀ p, is_Some (streamEncode W p)).

(** ** Budgets and ping shapes *)

(** The number of round trips one work item may issue. *)
Definition item_budget (nameservers : list string) (it : WorkItem) : nat :=
  match it with
  | WebExtItem _ => 1
  | UDPItem _ _ _ => RESOLVCONF_ATTEMPTS * length nameservers
  | TCPItem _ _ _ => length nameservers
  end.

(** The round trips a list of work items may issue for one key. *)
Definition key_budget (nameservers : list string) (queries : list WorkItem)
  (key : string) : nat :=
  sum_list_with
    (λ it, if decide (item_key it = key) then item_budget nameservers it else 0%nat)
    queries.

Definition reason_of (p : gmap string pval) : string :=
  match p !! "reason" with
  | Some (PStr reason) => reason
  | _ => ""
  end.

(** A ping stamped with the run identifier [id]. *)
Definition stamped (id : option string) (p : gmap string pval) : Prop :=
  p !! "measurementID" = Some (pval_of_str id).

(** The ping of a failed round trip of [key], with a reason in the
    vocabulary that starts with [tag]. *)
Definition error_ping (tag key : string) (p : gmap string pval) : Prop :=
  String.prefix tag (reason_of p) = true
  ∧ p !! "errorRRTYPE" = Some (PStr key)
  ∧ is_Some (p !! "errorAttempt").

Definition failures (evs : list Event) : nat :=
  length (filter (λ e, is_success e = false) evs).

(** An example start-up: upload is permitted and the portal is open. *)
Definition startup_ok : Startup :=
  mkStartup "0d9b7c2e-5a4f-4b7e-9d55-3f2a1c6e8b10" true (Resolved "not_captive").

(** Every round trip is rejected. *)
Definition world_all_fail : World :=
  mkWorld (λ _, Some [x00%byte]) (λ _, Some [x00%byte; x00%byte]) (λ _, 0%Q)
    (λ _ _, Rejected "NS_ERROR_UNKNOWN_HOST")
    (λ _ _ _ _, Rejected "STUDY_ERROR_UDP_TIMEOUT")
    (λ _ _ _, Rejected "connection refused")
    (Resolved "mac") (Resolved two_nameservers) (Rejected "not windows")
    (λ _, true).

(** A platform the add-on does not support. *)
Definition world_linux : World :=
  mkWorld (λ _, Some [x00%byte]) (λ _, Some [x00%byte; x00%byte]) (λ _, 0%Q)
    (λ _ _, Resolved ["34.120.4.181"])
    (λ _ _ _ _, Resolved [x01%byte])
    (λ _ _ _, Resolved [x01%byte])
    (Resolved "linux") (Rejected "not a mac") (Rejected "not windows")
    (λ _, true).

(** ** The two ways one iteration of a retry loop ends *)

(** The round trip to [nameserver] answered: count, remember the answer if
    none is stored.  [bump] is the increment of the path. *)
Definition success_step (bump : string → State → State)
  (key nameserver : string) (responseBytes : list byte) (st : State) : State :=
  let st := bump key st in
  let st := record_event
              (mkEvent key nameserver (Resolved (JS.Bytes responseBytes))) st in
  if negb (JS.truthy_arr (dnsData st !! key))
  then set_dnsData (<[key := JS.Bytes responseBytes]> (dnsData st)) st
  else st.

(** The round trip to [nameserver] was rejected: count, classify, report. *)
Definition failure_step (bump : string → State → State)
  (tag misc key nameserver message : string) (st : State) : State :=
  let st := bump key st in
  let st := record_event (mkEvent key nameserver (Rejected message)) st in
  let errorReason := if String.prefix tag message then message else misc in
  sendTelemetry (error_payload errorReason key st) st.

(** What a stretch of the run added: round trips and pings. *)
Definition extends (st st' : State) (evs : list Event)
  (new : list (gmap string pval)) : Prop :=
  trace st' = (trace st ++ evs)%list ∧ pings st' = (pings st ++ new)%list.

(** An increment touches nothing but the counter of its key, which it
    leaves defined. *)
Definition counter_only (bump : string → State → State) : Prop :=
  ∀ key st,
    trace (bump key st) = trace st
    ∧ pings (bump key st) = pings st
    ∧ dnsData (bump key st) = dnsData st
    ∧ measurementID (bump key st) = measurementID st
    ∧ draws (bump key st) = draws st
    ∧ (∀ k, k ≠ key → dnsAttempts (bump key st) !! k = dnsAttempts st !! k)
    ∧ is_Some (dnsAttempts (bump key st) !! key).

(** From [st] to [st'] only round trips of [key] were issued, and one
    stamped error ping of [key], with a reason tagged [tag], was sent per
    rejected round trip. *)
Definition reports (tag key : string) (st st' : State) : Prop :=
  ∃ evs new,
    extends st st' evs new
    ∧ Forall (λ e, ev_key e = key) evs
    ∧ length new = failures evs
    ∧ Forall (error_ping tag key) new
    ∧ Forall (stamped (measurementID st)) new
    ∧ measurementID st' = measurementID st
    ∧ draws st' = draws st.

(** From [st] to [st'] nothing changed under the keys other than [key]. *)
Definition touches_only (key : string) (st st' : State) : Prop :=
  ∀ k, k ≠ key →
    dnsData st' !! k = dnsData st !! k
    ∧ dnsAttempts st' !! k = dnsAttempts st !! k.

(** From [st] to [st'] no stored answer was dropped or replaced. *)
Definition keeps_answers (st st' : State) : Prop :=
  ∀ k v, dnsData st !! k = Some v → dnsData st' !! k = Some v.

(** From [st] to [st'] the run identifier stayed and every ping sent was
    stamped with it. *)
Definition stamps (st st' : State) : Prop :=
  measurementID st' = measurementID st
  ∧ ∃ new, pings st' = (pings st ++ new)%list
           ∧ Forall (stamped (measurementID st)) new.



(** * Key derivation *)

Lemma string_app_assoc (s1 s2 s3 : string) :
  (s1 ++ s2) ++ s3 = s1 ++ (s2 ++ s3).
Proof.
  induction s1 as [|a s1 IH]; [reflexivity|].
  change (String a ((s1 ++ s2) ++ s3) = String a (s1 ++ (s2 ++ s3))).
  by rewrite IH.
Qed.

Lemma string_app_empty_r (s : string) : s ++ "" = s.
Proof.
  induction s as [|a s IH]; [reflexivity|].
  change (String a (s ++ "") = String a s). by rewrite IH.
Qed.

Lemma computeKey_unfold transport args perClient :
  computeKey transport args perClient = computeKey_spec transport args perClient.
Proof.
  unfold computeKey, computeKey_spec.
  destruct (dnssec_ok args), (checking_disabled args), perClient,
    (JS.truthy_flag (noedns0 args));
    rewrite ?string_app_assoc, ?string_app_empty_r; reflexivity.
Qed.

(** C5 (what the code does). [computeKey] is the transport token, the rrtype
    token and then the suffixes "DO", "CD", "-U", "-N" in that order, each
    present exactly when its flag is set; nothing separates the transport
    from the rrtype, so on the example inputs it returns "tcpA", "tcpA-U",
    "udpADO", "udpACD" and, for noedns0 with perClient, "udpA-U-N". *)
Theorem computeKey_suffix_order :
  (∀ transport args perClient,
     computeKey transport args perClient
     = transport ++ rrtype args
         ++ (if dnssec_ok args then "DO" else "")
         ++ (if checking_disabled args then "CD" else "")
         ++ (if perClient then "-U" else "")
         ++ (if JS.truthy_flag (noedns0 args) then "-N" else ""))
  ∧ computeKey "tcp" query_A false = "tcpA"
  ∧ computeKey "tcp" query_A true = "tcpA-U"
  ∧ computeKey "udp" (mkQuery "A" "" true false None) false = "udpADO"
  ∧ computeKey "udp" (mkQuery "A" "" false true None) false = "udpACD"
  ∧ computeKey "udp" query_A_noedns0 true = "udpA-U-N".
Proof.
  split; [|by repeat split].
  intros transport args perClient. apply computeKey_unfold.
Qed.

(** The example results that the claim and the repository's tests give,
    with a hyphen after the transport and with "-N" before "-U", are not
    what [computeKey] returns. *)
Lemma computeKey_examples_differ :
  ¬ (computeKey "tcp" query_A false = "tcp-A"
     ∧ computeKey "tcp" query_A true = "tcp-A-U"
     ∧ computeKey "udp" (mkQuery "A" "" true false None) false = "udp-ADO"
     ∧ computeKey "udp" (mkQuery "A" "" false true None) false = "udp-ACD"
     ∧ computeKey "udp" query_A_noedns0 true = "udp-A-N-U").
Proof. intros [H _]. vm_compute in H. discriminate H. Qed.

(** No function that appends "-U" before "-N" can end a key in "-N-U": the
    suffix order the specification gives and its last example disagree
    whatever the transport token is. *)
Lemma suffix_order_excludes_N_U transport :
  computeKey_spec transport query_A_noedns0 true ≠ transport ++ "-A-N-U".
Proof.
  unfold computeKey_spec. simpl.
  intros H. apply (inj (String.app transport)) in H. discriminate H.
Qed.

(** * Injectivity of the catalog expansion *)

Lemma NoDup_fmap_inj_on {A B : Type} (f : A → B) (l : list A) (x y : A) :
  NoDup (f <$> l) → x ∈ l → y ∈ l → f x = f y → x = y.
Proof.
  induction l as [|a l IH]; intros Hnd Hx Hy Hxy; [by apply elem_of_nil in Hx|].
  rewrite fmap_cons in Hnd. apply NoDup_cons in Hnd as [Hnotin Hnd].
  apply elem_of_cons in Hx as [->|Hx]; apply elem_of_cons in Hy as [->|Hy].
  - reflexivity.
  - exfalso. apply Hnotin. rewrite Hxy. by apply list_elem_of_fmap_2.
  - exfalso. apply Hnotin. rewrite <- Hxy. by apply list_elem_of_fmap_2.
  - by apply IH.
Qed.

Lemma catalog_triples_elem v t p :
  v ∈ COMMON_QUERIES → t ∈ transports → (v, t, p) ∈ catalog_triples.
Proof.
  intros Hv Ht. unfold catalog_triples.
  apply list_elem_of_bind. exists v. split; [|done].
  apply list_elem_of_bind. exists t. split; [|done].
  apply list_elem_of_bind. exists p. split; [by constructor|].
  destruct p; repeat constructor.
Qed.

Lemma catalog_keys_NoDup : NoDup (triple_key <$> catalog_triples).
Proof. apply (bool_decide_unpack _). vm_compute. reflexivity. Qed.

(** The keys of the whole work list, baseline included, are pairwise
    distinct. *)
Lemma work_list_keys_NoDup : NoDup (item_key <$> build_queries).
Proof. apply (bool_decide_unpack _). vm_compute. reflexivity. Qed.

(** C9. Two distinct (variant, transport, perClient) triples of the catalog
    crossed with udp/tcp and false/true never get the same key. *)
Theorem computeKey_catalog_injective (v1 v2 : Query) (t1 t2 : string)
  (p1 p2 : bool) :
  v1 ∈ COMMON_QUERIES → v2 ∈ COMMON_QUERIES →
  t1 ∈ transports → t2 ∈ transports →
  (v1, t1, p1) ≠ (v2, t2, p2) →
  computeKey t1 v1 p1 ≠ computeKey t2 v2 p2.
Proof.
  intros Hv1 Hv2 Ht1 Ht2 Hne Hkey. apply Hne.
  apply (NoDup_fmap_inj_on triple_key catalog_triples);
    auto using catalog_keys_NoDup, catalog_triples_elem.
Qed.

Lemma computeKey_catalog_injective_witness :
  computeKey "udp" query_A true ≠ computeKey "tcp" query_A_noedns0 true.
Proof.
  apply computeKey_catalog_injective.
  - unfold COMMON_QUERIES, query_A. repeat constructor.
  - unfold COMMON_QUERIES, query_A_noedns0. repeat constructor.
  - unfold transports. repeat constructor.
  - unfold transports. repeat constructor.
  - discriminate.
Defined.

(** * The OPT record of a UDP query *)

Lemma catalog_never_requests_both (query : Query) :
  query ∈ COMMON_QUERIES →
  JS.truthy_flag (noedns0 query) && dnssec_ok query = false.
Proof.
  intros Hin. unfold COMMON_QUERIES in Hin.
  repeat (apply elem_of_cons in Hin as [->|Hin]; [reflexivity|]).
  by apply elem_of_nil in Hin.
Qed.

(** C3. For every UDP query variant of the catalog, and for every variant
    that does not ask for noedns0 and dnssec_ok together, the packet
    [encodeUDPQuery] encodes carries one OPT record advertising a payload
    size of 4096 unless noedns0 is set, the DNSSEC-OK bit of that record is
    set exactly when dnssec_ok is, and when noedns0 is set no OPT record is
    attached. *)
Theorem encodeUDPQuery_opt_variants (W : World) (query : Query)
  (domain : string) (st : State) :
  query ∈ COMMON_QUERIES
  ∨ JS.truthy_flag (noedns0 query) && dnssec_ok query = false →
  let p := udpPacket domain (rrtype query) (dnssec_ok query)
             (checking_disabled query) (noedns0 query) (txid W st) in
  (encodeUDPQuery W domain (rrtype query) (dnssec_ok query)
     (checking_disabled query) (noedns0 query) st).1
  = encode W p
  ∧ (if JS.truthy_flag (noedns0 query)
     then additionals p = Some [] ∧ opt_records p = [] ∧ has_opt p = false
     else ∃ a, additionals p = Some [a] ∧ opt_records p = [a]
               ∧ a_type a = "OPT"
               ∧ udpPayloadSize a = Some UDP_PAYLOAD_SIZE
               ∧ UDP_PAYLOAD_SIZE = 4096
               ∧ do_bit a = dnssec_ok query).
Proof.
  intros Hpre.
  assert (JS.truthy_flag (noedns0 query) && dnssec_ok query = false) as Hnot.
  { destruct Hpre as [Hin|Hnot]; [by apply catalog_never_requests_both|done]. }
  clear Hpre. split; [reflexivity|].
  destruct query as [rr pre dok cd n]. simpl in *.
  destruct n as [[]|], dok; simpl in *; try discriminate Hnot;
    first [ by repeat split | eexists; by repeat split ].
Qed.

Lemma encodeUDPQuery_opt_variants_witness :
  let p := udpPacket APEX_DOMAIN_NAME "A" false false (Some true)
             (txid world_ok initial_state) in
  (encodeUDPQuery world_ok APEX_DOMAIN_NAME "A" false false (Some true)
     initial_state).1
  = encode world_ok p
  ∧ additionals p = Some [] ∧ opt_records p = [] ∧ has_opt p = false.
Proof.
  apply (encodeUDPQuery_opt_variants world_ok query_A_noedns0 APEX_DOMAIN_NAME
           initial_state).
  left. unfold COMMON_QUERIES, query_A_noedns0. repeat constructor.
Defined.

(** * The TCP encoder and noedns0 *)



(** * The domain of the per-client TCP item *)

(** C6 (what the code does). For every variant, the fourth closure pushed
    is the per-client TCP item: its key is the TCP key, yet the name it
    queries embeds the UDP per-client key, which is never the name built
    from the item's own key. *)
Theorem tcp_per_client_domain_embeds_udp_key (query : Query) :
  ∃ domain,
    query_items query !! 3%nat
    = Some (TCPItem (computeKey "tcp" query true) domain query)
    ∧ domain = prefix query ++ computeKey "udp" query true ++ "."
                 ++ PER_CLIENT_PREFIX ++ APEX_DOMAIN_NAME
    ∧ domain ≠ prefix query ++ computeKey "tcp" query true ++ "."
                 ++ PER_CLIENT_PREFIX ++ APEX_DOMAIN_NAME.
Proof.
  eexists. split; [reflexivity|]. split; [reflexivity|].
  intros H. apply (inj (String.app (prefix query))) in H.
  rewrite !computeKey_unfold in H. unfold computeKey_spec in H.
  vm_compute in H. discriminate H.
Qed.

(** The UDP per-client item and the other two items do query the name the
    rule gives for their own key. *)
Lemma other_items_domains (query : Query) :
  query_items query !! 0%nat
  = Some (UDPItem (computeKey "udp" query false)
            (prefix query ++ APEX_DOMAIN_NAME) query)
  ∧ query_items query !! 1%nat
    = Some (TCPItem (computeKey "tcp" query false)
              (prefix query ++ APEX_DOMAIN_NAME) query)
  ∧ query_items query !! 2%nat
    = Some (UDPItem (computeKey "udp" query true)
              (prefix query ++ computeKey "udp" query true ++ "."
                 ++ PER_CLIENT_PREFIX ++ APEX_DOMAIN_NAME) query).
Proof. by repeat split. Qed.

(** * Facts about traces *)

Lemma first_success_app (key : string) (evs : list Event) (e : Event) :
  first_success key (evs ++ [e])
  = match first_success key evs with
    | Some a => Some a
    | None =>
        if decide (ev_key e = key) then
          match ev_result e with
          | Resolved a => Some a
          | Rejected _ => None
          end
        else None
    end.
Proof.
  induction evs as [|e' evs IH]; simpl.
  - destruct (decide (ev_key e = key)); [destruct (ev_result e)|]; reflexivity.
  - destruct (decide (ev_key e' = key)); [destruct (ev_result e')|]; auto.
Qed.

Lemma attempts_issued_app (key : string) (evs1 evs2 : list Event) :
  attempts_issued key (evs1 ++ evs2)
  = (attempts_issued key evs1 + attempts_issued key evs2)%nat.
Proof. unfold attempts_issued. by rewrite filter_app, length_app. Qed.

Lemma attempts_issued_same (key : string) (evs : list Event) :
  Forall (λ e, ev_key e = key) evs → attempts_issued key evs = length evs.
Proof.
  unfold attempts_issued. induction 1 as [|e evs He _ IH]; [reflexivity|].
  rewrite filter_cons_True by done. simpl. by rewrite IH.
Qed.

Lemma sweep_events_failures (evs1 evs2 : list Event) :
  Forall (λ e, is_success e = false) evs1 → sweep_events evs2 →
  sweep_events (evs1 ++ evs2).
Proof.
  induction 1 as [|e evs1 He _ IH]; intros H2; simpl; [done|].
  apply sweep_failure; auto.
Qed.

(** In the round trips of one item a success can only be the last one. *)
Lemma sweep_events_success_last (evs : list Event) (i : nat) (e : Event) :
  sweep_events evs → evs !! i = Some e → is_success e = true →
  S i = length evs.
Proof.
  intros Hsw. revert i. induction Hsw as [|e' He'|e' evs He' Hsw IH]; intros i Hi Hs.
  - by rewrite lookup_nil in Hi.
  - destruct i as [|i]; [reflexivity|]. by rewrite lookup_cons, lookup_nil in Hi.
  - destruct i as [|i]; simpl in Hi.
    + injection Hi as ->. congruence.
    + simpl. f_equal. by apply IH.
Qed.

(** * The retry loops *)

Section Sweeps.
Context (W : World) (key : string) (queryBuf : list byte).

Lemma udp_pass_trace (rrtype : string) (nameservers : list string) (st : State) :
  ∃ evs,
    trace (udp_pass W key queryBuf rrtype nameservers st).1 = (trace st ++ evs)%list
    ∧ Forall (λ e, ev_key e = key) evs
    ∧ (length evs ≤ length nameservers)%nat
    ∧ sweep_events evs
    ∧ ((udp_pass W key queryBuf rrtype nameservers st).2 = false →
       Forall (λ e, is_success e = false) evs).
Proof.
  revert st. induction nameservers as [|ns rest IH]; intros st; simpl.
  - exists []. rewrite app_nil_r. repeat split; auto using sweep_nil.
  - destruct (udp_sendDNSQuery W _ ns queryBuf rrtype) as [bytes|message].
    + exists [mkEvent key ns (Resolved (JS.Bytes bytes))].
      split; [by destruct (negb _)|].
      repeat split; simpl; [by repeat constructor|lia| |discriminate].
      by apply sweep_success.
    + match goal with |- context [udp_pass _ _ _ _ rest ?s] =>
        destruct (IH s) as (evs & Htr & Hkey & Hlen & Hsw & Hfail) end.
      exists (mkEvent key ns (Rejected message) :: evs).
      split; [rewrite Htr; simpl; by rewrite <- app_assoc|].
      repeat split; simpl; [by constructor|lia| |].
      * by apply sweep_failure.
      * intros Hret. constructor; auto.
Qed.

Lemma udp_pass_data_inv (rrtype : string) (nameservers : list string) (st : State) :
  data_inv st → data_inv (udp_pass W key queryBuf rrtype nameservers st).1.
Proof.
  revert st. induction nameservers as [|ns rest IH]; intros st Hinv; simpl; [done|].
  destruct (udp_sendDNSQuery W _ ns queryBuf rrtype) as [bytes|message].
  - intros k. specialize (Hinv k). simpl.
    destruct (dnsData st !! key) as [a|] eqn:Hd; simpl;
      rewrite first_success_app; simpl.
    + rewrite <- Hinv. destruct (dnsData st !! k) eqn:Hk; [done|].
      destruct (decide (key = k)) as [->|]; [congruence|done].
    + destruct (decide (key = k)) as [->|Hne].
      * rewrite lookup_insert_eq. rewrite <- Hinv, Hd. reflexivity.
      * rewrite lookup_insert_ne by done. rewrite <- Hinv.
        by destruct (dnsData st !! k).
  - apply IH. intros k. specialize (Hinv k). simpl.
    rewrite first_success_app; simpl. rewrite <- Hinv.
    destruct (dnsData st !! k); [done|]. by destruct (decide (key = k)).
Qed.

Lemma udp_pass_attempts_NaN (rrtype : string) (nameservers : list string) (st : State) :
  dnsAttempts st !! key = Some JS.NaN →
  dnsAttempts (udp_pass W key queryBuf rrtype nameservers st).1 !! key
  = Some JS.NaN.
Proof.
  revert st. induction nameservers as [|ns rest IH]; intros st Hnan; simpl; [done|].
  destruct (udp_sendDNSQuery W _ ns queryBuf rrtype) as [bytes|message].
  - destruct (negb _); simpl; rewrite lookup_insert_eq, Hnan; reflexivity.
  - apply IH. simpl. rewrite lookup_insert_eq, Hnan. reflexivity.
Qed.

Lemma udp_passes_trace (rrtype : string) (nameservers : list string) (n : nat)
  (st : State) :
  ∃ evs,
    trace (udp_passes W key queryBuf rrtype nameservers n st)
    = (trace st ++ evs)%list
    ∧ Forall (λ e, ev_key e = key) evs
    ∧ (length evs ≤ n * length nameservers)%nat
    ∧ sweep_events evs.
Proof.
  revert st. induction n as [|n IH]; intros st; simpl.
  - exists []. rewrite app_nil_r. repeat split; auto using sweep_nil.
  - destruct (udp_pass_trace rrtype nameservers st)
      as (evs1 & Htr1 & Hkey1 & Hlen1 & Hsw1 & Hfail1).
    destruct (udp_pass W key queryBuf rrtype nameservers st)
      as [st1 returned]; simpl in *.
    destruct returned.
    + exists evs1. repeat split; auto. lia.
    + destruct (IH st1) as (evs2 & Htr2 & Hkey2 & Hlen2 & Hsw2).
      exists (evs1 ++ evs2)%list. rewrite Htr2, Htr1, <- app_assoc.
      repeat split.
      * by apply Forall_app.
      * rewrite length_app. lia.
      * apply sweep_events_failures; auto.
Qed.

Lemma udp_passes_data_inv (rrtype : string) (nameservers : list string)
  (n : nat) (st : State) :
  data_inv st → data_inv (udp_passes W key queryBuf rrtype nameservers n st).
Proof.
  revert st. induction n as [|n IH]; intros st Hinv; simpl; [done|].
  pose proof (udp_pass_data_inv rrtype nameservers st Hinv) as H1.
  destruct (udp_pass W key queryBuf rrtype nameservers st)
    as [st1 returned]; simpl in *.
  destruct returned; auto.
Qed.

Lemma udp_passes_attempts_NaN (rrtype : string) (nameservers : list string)
  (n : nat) (st : State) :
  dnsAttempts st !! key = Some JS.NaN →
  dnsAttempts (udp_passes W key queryBuf rrtype nameservers n st) !! key
  = Some JS.NaN.
Proof.
  revert st. induction n as [|n IH]; intros st Hnan; simpl; [done|].
  pose proof (udp_pass_attempts_NaN rrtype nameservers st Hnan) as H1.
  destruct (udp_pass W key queryBuf rrtype nameservers st)
    as [st1 returned]; simpl in *.
  destruct returned; auto.
Qed.

(** The first pass over a non-empty list turns an absent counter into NaN. *)
Lemma udp_pass_first_attempt_NaN (rrtype ns : string) (rest : list string)
  (st : State) :
  dnsAttempts st !! key = None →
  dnsAttempts (udp_pass W key queryBuf rrtype (ns :: rest) st).1 !! key
  = Some JS.NaN.
Proof.
  intros Hnone. simpl.
  destruct (udp_sendDNSQuery W _ ns queryBuf rrtype) as [bytes|message].
  - destruct (negb _); simpl; rewrite lookup_insert_eq, Hnone; reflexivity.
  - apply udp_pass_attempts_NaN. simpl.
    rewrite lookup_insert_eq, Hnone. reflexivity.
Qed.

Lemma counts_inv_step (st st2 : State) (e : Event) :
  counts_inv st → ev_key e = key →
  dnsAttempts st2 = dnsAttempts (bump_guarded key st) →
  trace st2 = (trace st ++ [e])%list →
  counts_inv st2.
Proof.
  intros Hinv He Hat Htr k. specialize (Hinv k).
  rewrite Hat, Htr, attempts_issued_app. unfold bump_guarded, bump_plain.
  destruct (decide (key = k)) as [<-|Hne].
  - replace (attempts_issued key [e]) with 1%nat
      by (unfold attempts_issued; by rewrite filter_cons_True).
    rewrite Hinv.
    destruct (attempts_issued key (trace st)) as [|n] eqn:Hn; simpl.
    + rewrite lookup_insert_eq. simpl. by rewrite lookup_insert_eq.
    + rewrite lookup_insert_eq, Hinv. simpl.
      do 2 f_equal. lia.
  - replace (attempts_issued k [e]) with 0%nat
      by (unfold attempts_issued; rewrite filter_cons_False; [done|congruence]).
    rewrite Nat.add_0_r, <- Hinv.
    destruct (negb _); simpl; rewrite ?lookup_insert_ne by done; reflexivity.
Qed.

Lemma bump_guarded_trace (st : State) :
  trace (bump_guarded key st) = trace st.
Proof. unfold bump_guarded. by destruct (negb _). Qed.

Lemma bump_guarded_dnsData (st : State) :
  dnsData (bump_guarded key st) = dnsData st.
Proof. unfold bump_guarded. by destruct (negb _). Qed.

Lemma tcp_pass_trace (nameservers : list string) (st : State) :
  ∃ evs,
    trace (tcp_pass W key queryBuf nameservers st) = (trace st ++ evs)%list
    ∧ Forall (λ e, ev_key e = key) evs
    ∧ (length evs ≤ length nameservers)%nat
    ∧ sweep_events evs.
Proof.
  revert st. induction nameservers as [|ns rest IH]; intros st.
  - exists []. simpl. rewrite app_nil_r. repeat split; auto using sweep_nil.
  - cbn [tcp_pass]. pose proof (bump_guarded_trace st) as Htr0.
    destruct (bump_guarded key st) as [mid d a ps tr k]; simpl in *; subst tr.
    destruct (tcp_sendDNSQuery W _ ns queryBuf) as [bytes|message].
    + exists [mkEvent key ns (Resolved (JS.Bytes bytes))].
      split; [by destruct (negb (JS.truthy_arr _))|].
      repeat split; simpl; [by repeat constructor|lia|].
      by apply sweep_success.
    + match goal with |- context [tcp_pass _ _ _ rest ?s] =>
        destruct (IH s) as (evs & Htr & Hkey & Hlen & Hsw) end.
      exists (mkEvent key ns (Rejected message) :: evs).
      split; [rewrite Htr; simpl; by rewrite <- app_assoc|].
      repeat split; simpl; [by constructor|lia|].
      by apply sweep_failure.
Qed.

Lemma tcp_pass_data_inv (nameservers : list string) (st : State) :
  data_inv st → data_inv (tcp_pass W key queryBuf nameservers st).
Proof.
  revert st. induction nameservers as [|ns rest IH]; intros st Hinv; [done|].
  cbn [tcp_pass]. pose proof (bump_guarded_trace st) as Htr0.
  pose proof (bump_guarded_dnsData st) as Hd0.
  destruct (bump_guarded key st) as [mid d a ps tr n]; simpl in *; subst tr d.
  destruct (tcp_sendDNSQuery W _ ns queryBuf) as [bytes|message].
  - intros k. specialize (Hinv k).
    destruct (dnsData st !! key) as [b|] eqn:Hd; simpl;
      rewrite first_success_app; simpl.
    + rewrite <- Hinv. destruct (dnsData st !! k) eqn:Hk; [done|].
      destruct (decide (key = k)) as [->|]; [congruence|done].
    + destruct (decide (key = k)) as [->|Hne].
      * rewrite lookup_insert_eq. rewrite <- Hinv, Hd. reflexivity.
      * rewrite lookup_insert_ne by done. rewrite <- Hinv.
        by destruct (dnsData st !! k).
  - apply IH. intros k. specialize (Hinv k). simpl.
    rewrite first_success_app. simpl. rewrite <- Hinv.
    destruct (dnsData st !! k); [done|]. by destruct (decide (key = k)).
Qed.

Lemma tcp_pass_counts_inv (nameservers : list string) (st : State) :
  counts_inv st → counts_inv (tcp_pass W key queryBuf nameservers st).
Proof.
  revert st. induction nameservers as [|ns rest IH]; intros st Hinv; [done|].
  cbn [tcp_pass]. remember (bump_guarded key st) as st1 eqn:Hst1.
  assert (Htr0 : trace st1 = trace st) by (subst; apply bump_guarded_trace).
  assert (Ha0 : dnsAttempts st1 = dnsAttempts (bump_guarded key st))
    by (by subst).
  clear Hst1.
  destruct (tcp_sendDNSQuery W _ ns queryBuf) as [bytes|message].
  - eapply (counts_inv_step st _ (mkEvent key ns (Resolved (JS.Bytes bytes))));
      [done|done|rewrite <- Ha0|rewrite <- Htr0];
      by destruct (negb (JS.truthy_arr _)).
  - apply IH.
    eapply (counts_inv_step st _ (mkEvent key ns (Rejected message)));
      [done|done|rewrite <- Ha0|rewrite <- Htr0]; reflexivity.
Qed.

End Sweeps.

(** * Whole senders *)

Lemma sendUDPQuery_events (W : World) (key domain : string) (query : Query)
  (nameservers : list string) (st : State) :
  ∃ evs,
    trace (sendUDPQuery W key domain query nameservers st).1
    = (trace st ++ evs)%list
    ∧ Forall (λ e, ev_key e = key) evs
    ∧ (length evs ≤ RESOLVCONF_ATTEMPTS * length nameservers)%nat
    ∧ sweep_events evs.
Proof.
  unfold sendUDPQuery, encodeUDPQuery.
  destruct (encode W _) as [queryBuf|].
  - apply (udp_passes_trace W key queryBuf (rrtype query) nameservers
             RESOLVCONF_ATTEMPTS (next_draw st)).
  - exists []. simpl. rewrite app_nil_r.
    repeat split; auto using sweep_nil. lia.
Qed.

Lemma sendTCPQuery_events (W : World) (key domain : string) (query : Query)
  (nameservers : list string) (st : State) :
  ∃ evs,
    trace (sendTCPQuery W key domain query nameservers st).1
    = (trace st ++ evs)%list
    ∧ Forall (λ e, ev_key e = key) evs
    ∧ (length evs ≤ length nameservers)%nat
    ∧ sweep_events evs.
Proof.
  unfold sendTCPQuery, encodeTCPQuery.
  destruct (streamEncode W _) as [queryBuf|].
  - apply (tcp_pass_trace W key queryBuf nameservers (next_draw st)).
  - exists []. simpl. rewrite app_nil_r.
    repeat split; auto using sweep_nil. lia.
Qed.

(** On the two socket paths [dnsData] keeps holding the first successful
    answer of every key. *)
Lemma sendUDPQuery_data_inv (W : World) (key domain : string) (query : Query)
  (nameservers : list string) (st : State) :
  data_inv st → data_inv (sendUDPQuery W key domain query nameservers st).1.
Proof.
  intros Hinv. unfold sendUDPQuery, encodeUDPQuery.
  destruct (encode W _) as [queryBuf|]; [|exact Hinv].
  by apply udp_passes_data_inv.
Qed.

Lemma sendTCPQuery_data_inv (W : World) (key domain : string) (query : Query)
  (nameservers : list string) (st : State) :
  data_inv st → data_inv (sendTCPQuery W key domain query nameservers st).1.
Proof.
  intros Hinv. unfold sendTCPQuery, encodeTCPQuery.
  destruct (streamEncode W _) as [queryBuf|]; [|exact Hinv].
  by apply tcp_pass_data_inv.
Qed.

(** On the TCP path [dnsAttempts] keeps holding the number of round trips
    of every key. *)
Lemma sendTCPQuery_counts_inv (W : World) (key domain : string) (query : Query)
  (nameservers : list string) (st : State) :
  counts_inv st → counts_inv (sendTCPQuery W key domain query nameservers st).1.
Proof.
  intros Hinv. unfold sendTCPQuery, encodeTCPQuery.
  destruct (streamEncode W _) as [queryBuf|]; [|exact Hinv].
  by apply tcp_pass_counts_inv.
Qed.

Lemma initial_state_invariants : data_inv initial_state ∧ counts_inv initial_state.
Proof. split; intros key; reflexivity. Qed.

(** The guarded increment of the TCP path starts an unseen key at 1 and adds
    1 to a positive count. *)
Lemma bump_guarded_unseen (key : string) (st : State) :
  dnsAttempts st !! key = None →
  dnsAttempts (bump_guarded key st) !! key = Some (JS.Num 1).
Proof.
  intros H. unfold bump_guarded, bump_plain. rewrite H. simpl.
  by rewrite !lookup_insert_eq.
Qed.

Lemma bump_guarded_seen (key : string) (n : Z) (st : State) :
  dnsAttempts st !! key = Some (JS.Num n) → 1 ≤ n →
  dnsAttempts (bump_guarded key st) !! key = Some (JS.Num (n + 1)).
Proof.
  intros H Hn. unfold bump_guarded, bump_plain. rewrite H. simpl.
  destruct (n =? 0) eqn:E; [lia|]. simpl. by rewrite lookup_insert_eq, H.
Qed.

(** * First answer wins *)

(** C1 (what the code does on the WebExtensions path). A successful
    [browser.dns.resolve] is a successful attempt for the key
    "udpAWebExt", yet its answer is stored only when an answer is already
    there: an absent entry stays absent, a present one is overwritten. *)
Theorem webext_answer_not_saved (W : World) (domain : string)
  (addresses : list string) (st : State) :
  dns_resolve W (length (trace st)) domain = Resolved addresses →
  let st' := (sendUDPWebExtQuery W domain st).1 in
  trace st'
  = (trace st
     ++ [mkEvent "udpAWebExt" domain (Resolved (JS.Addresses addresses))])%list
  ∧ dnsData st' !! "udpAWebExt"
    = match dnsData st !! "udpAWebExt" with
      | None => None
      | Some _ => Some (JS.Addresses addresses)
      end.
Proof.
  intros Hres. unfold sendUDPWebExtQuery. simpl. rewrite Hres. simpl.
  destruct (dnsData st !! "udpAWebExt") as [a|] eqn:Hd; simpl.
  - split; [reflexivity|]. by rewrite lookup_insert_eq.
  - by split.
Qed.

Lemma webext_answer_not_saved_witness :
  let st' := (sendUDPWebExtQuery world_ok APEX_DOMAIN_NAME initial_state).1 in
  trace st'
  = [mkEvent "udpAWebExt" APEX_DOMAIN_NAME
       (Resolved (JS.Addresses ["34.120.4.181"]))]
  ∧ dnsData st' !! "udpAWebExt" = None.
Proof.
  apply (webext_answer_not_saved world_ok APEX_DOMAIN_NAME ["34.120.4.181"]
           initial_state).
  reflexivity.
Defined.

(** * Attempt counters *)

(** C2 (what the code does on the UDP path). The unguarded increment turns
    the missing counter of an unseen key into NaN, and NaN it stays. *)
Theorem udp_unseen_key_counts_NaN (W : World) (key domain : string)
  (query : Query) (ns : string) (rest : list string) (st : State)
  (queryBuf : list byte) :
  dnsAttempts st !! key = None →
  encode W (udpPacket domain (rrtype query) (dnssec_ok query)
              (checking_disabled query) (noedns0 query) (txid W st))
  = Some queryBuf →
  dnsAttempts (sendUDPQuery W key domain query (ns :: rest) st).1 !! key
  = Some JS.NaN.
Proof.
  intros Hnone Henc. unfold sendUDPQuery, encodeUDPQuery. rewrite Henc.
  unfold RESOLVCONF_ATTEMPTS. cbn [udp_passes fst].
  pose proof (udp_pass_first_attempt_NaN W key queryBuf (rrtype query) ns rest
                (next_draw st) Hnone) as H1.
  destruct (udp_pass W key queryBuf (rrtype query) (ns :: rest) (next_draw st))
    as [st1 returned]; simpl in H1.
  destruct returned; [exact H1|].
  pose proof (udp_pass_attempts_NaN W key queryBuf (rrtype query) (ns :: rest)
                st1 H1) as H2.
  destruct (udp_pass W key queryBuf (rrtype query) (ns :: rest) st1)
    as [st2 returned2]; simpl in H2.
  by destruct returned2.
Qed.

Lemma udp_unseen_key_counts_NaN_witness :
  dnsAttempts
    (sendUDPQuery world_ok "udpA" APEX_DOMAIN_NAME query_A two_nameservers
       initial_state).1 !! "udpA"
  = Some JS.NaN.
Proof.
  apply (udp_unseen_key_counts_NaN world_ok "udpA" APEX_DOMAIN_NAME query_A
           "10.0.0.1" ["10.0.0.2"] initial_state [x00%byte]);
    reflexivity.
Defined.

(** The WebExtensions path has the same unguarded increment. *)
Lemma webext_unseen_key_counts_NaN (W : World) (domain : string) (st : State) :
  dnsAttempts st !! "udpAWebExt" = None →
  dnsAttempts (sendUDPWebExtQuery W domain st).1 !! "udpAWebExt" = Some JS.NaN.
Proof.
  intros Hnone. unfold sendUDPWebExtQuery. simpl.
  destruct (dns_resolve W _ domain); simpl.
  - destruct (JS.bool_loose_eq _ _); simpl; by rewrite lookup_insert_eq, Hnone.
  - by rewrite lookup_insert_eq, Hnone.
Qed.

(** C4 (what the code does). In a run where the UDP socket fails for the
    first nameserver and answers for the second, two round trips are issued
    for "udpA", the second answer is stored, and the counter reported for
    the key is NaN. *)
Theorem udp_retry_counter_is_NaN :
  let st' := (runMeasurement world_udp_retry "not_captive" initial_state).1 in
  attempts_issued "udpA" (trace st') = 2%nat
  ∧ dnsData st' !! "udpA" = Some (JS.Bytes [x01%byte; x02%byte; x03%byte])
  ∧ dnsAttempts st' !! "udpA" = Some JS.NaN
  ∧ dnsAttempts st' !! "tcpA" = Some (JS.Num 1).
Proof. vm_compute. by repeat split. Qed.

(** * The sweep and the run *)

Lemma run_item_encodes (W : World) (nameservers : list string) (it : WorkItem)
  (st : State) :
  item_encodes W it st = true →
  (run_item W nameservers it st).2 = Ret tt.
Proof.
  destruct it as [domain|key domain query|key domain query]; simpl.
  - intros _. unfold sendUDPWebExtQuery.
    by destruct (dns_resolve W _ domain).
  - intros [buf Hbuf]%bool_decide_eq_true.
    unfold sendUDPQuery, encodeUDPQuery. by rewrite Hbuf.
  - intros [buf Hbuf]%bool_decide_eq_true.
    unfold sendTCPQuery, encodeTCPQuery. by rewrite Hbuf.
Qed.

Lemma run_item_encode_fails (W : World) (nameservers : list string)
  (it : WorkItem) (st : State) :
  item_encodes W it st = false →
  run_item W nameservers it st
  = (sendTelemetry {["reason" := PStr (encode_error it)]} (next_draw st),
     Throw (encode_error it)).
Proof.
  destruct it as [domain|key domain query|key domain query]; simpl;
    [discriminate| |].
  - intros Hnone%bool_decide_eq_false. unfold sendUDPQuery, encodeUDPQuery.
    destruct (encode W _); [|reflexivity]. by destruct Hnone.
  - intros Hnone%bool_decide_eq_false. unfold sendTCPQuery, encodeTCPQuery.
    destruct (streamEncode W _); [|reflexivity]. by destruct Hnone.
Qed.

Lemma run_queries_app (W : World) (nameservers : list string)
  (pre rest : list WorkItem) (st : State) :
  run_queries W nameservers (pre ++ rest) st
  = match run_queries W nameservers pre st with
    | (st1, Ret _) => run_queries W nameservers rest st1
    | (st1, Throw message) => (st1, Throw message)
    end.
Proof.
  revert st. induction pre as [|it pre IH]; intros st; simpl; [reflexivity|].
  destruct (run_item W nameservers it st) as [st1 [[]|message]]; auto.
Qed.

(** When every packet is accepted by the encoders the sweep returns. *)
Lemma run_queries_returns (W : World) (nameservers : list string)
  (queries : list WorkItem) (st : State) :
  (∀ it st1, item_encodes W it st1 = true) →
  (run_queries W nameservers queries st).2 = Ret tt.
Proof.
  intros Henc. revert st. induction queries as [|it rest IH]; intros st; simpl;
    [reflexivity|].
  pose proof (run_item_encodes W nameservers it st (Henc it st)) as Hit.
  destruct (run_item W nameservers it st) as [st1 [[]|message]];
    [apply IH|discriminate Hit].
Qed.

Lemma captive_ok_guard (captiveStatus : string) :
  negb (String.eqb captiveStatus "unlocked_portal")
  && negb (String.eqb captiveStatus "not_captive")
  && negb (String.eqb captiveStatus "clear")
  = negb (captive_ok captiveStatus).
Proof.
  unfold captive_ok.
  by destruct (String.eqb captiveStatus "unlocked_portal"),
    (String.eqb captiveStatus "not_captive"), (String.eqb captiveStatus "clear").
Qed.

Lemma returned_pair (r : State * Result unit) :
  r.2 = Ret tt → r = (r.1, Ret tt).
Proof. destruct r as [st res]. simpl. by intros ->. Qed.

(** C7 (as the code has it). When the encoder rejects the packet of a work
    item, one encode-error ping is emitted for it, no counter, answer or
    round trip is added, and the error leaves the sweep and the run: the
    items queued behind it are not run and no completed report follows. *)
Theorem encode_failure_ends_run (W : World) (captiveStatus : string)
  (st st1 st2 st3 : State) (nameservers : list string)
  (pre post : list WorkItem) (it : WorkItem) :
  captive_ok captiveStatus = true →
  readNameservers W (sendTelemetry {["reason" := PStr STUDY_START]} st)
  = (st1, Ret nameservers) →
  shuffleArray W build_queries st1 = ((pre ++ it :: post)%list, st2) →
  run_queries W nameservers pre st2 = (st3, Ret tt) →
  item_encodes W it st3 = false →
  let ping := <["measurementID" := pval_of_str (measurementID st3)]>
                {["reason" := PStr (encode_error it)]} in
  ∃ st',
    runMeasurement W captiveStatus st = (st', Throw (encode_error it))
    ∧ pings st' = (pings st3 ++ [ping])%list
    ∧ dnsAttempts st' = dnsAttempts st3
    ∧ dnsData st' = dnsData st3
    ∧ trace st' = trace st3.
Proof.
  intros Hok Hread Hshuf Hpre Henc ping.
  exists (sendTelemetry {["reason" := PStr (encode_error it)]} (next_draw st3)).
  split; [|by repeat split].
  unfold runMeasurement. rewrite captive_ok_guard, Hok.
  cbn [negb fetchTest]. rewrite Hread. unfold sendQueries. rewrite Hshuf.
  rewrite run_queries_app, Hpre. cbn [run_queries].
  by rewrite (run_item_encode_fails W nameservers it st3 Henc).
Qed.

Lemma encode_failure_ends_run_witness :
  let W := world_encode_fails in
  let st1 :=
    (readNameservers W
       (sendTelemetry {["reason" := PStr STUDY_START]} initial_state)).1 in
  let queue := (shuffleArray W build_queries st1).1 in
  let st2 := (shuffleArray W build_queries st1).2 in
  let pre := take 36 queue in
  let it := UDPItem "udpNEWONE" APEX_DOMAIN_NAME
              (mkQuery "NEWONE" "" false false None) in
  let st3 := (run_queries W two_nameservers pre st2).1 in
  ∃ st',
    runMeasurement W "not_captive" initial_state
    = (st', Throw STUDY_ERROR_UDP_ENCODE)
    ∧ pings st'
      = (pings st3
         ++ [<["measurementID" := PUndefined]>
               {["reason" := PStr STUDY_ERROR_UDP_ENCODE]}])%list
    ∧ dnsAttempts st' = dnsAttempts st3
    ∧ dnsData st' = dnsData st3
    ∧ trace st' = trace st3.
Proof.
  intros W st1 queue st2 pre it st3.
  apply (encode_failure_ends_run W "not_captive" initial_state st1 st2 st3
           two_nameservers pre (drop 37 queue) it).
  - reflexivity.
  - vm_compute. reflexivity.
  - vm_compute. reflexivity.
  - apply returned_pair. vm_compute. reflexivity.
  - vm_compute. reflexivity.
Defined.

(** The run identifier is only written by [main]. *)
Lemma udp_pass_measurementID (W : World) (key : string) (queryBuf : list byte)
  (rrtype : string) (nameservers : list string) (st : State) :
  measurementID (udp_pass W key queryBuf rrtype nameservers st).1
  = measurementID st.
Proof.
  revert st. induction nameservers as [|ns rest IH]; intros st; simpl; [done|].
  destruct (udp_sendDNSQuery W _ ns queryBuf rrtype) as [bytes|message].
  - by destruct (negb _).
  - by rewrite IH.
Qed.

Lemma udp_passes_measurementID (W : World) (key : string) (queryBuf : list byte)
  (rrtype : string) (nameservers : list string) (n : nat) (st : State) :
  measurementID (udp_passes W key queryBuf rrtype nameservers n st)
  = measurementID st.
Proof.
  revert st. induction n as [|n IH]; intros st; simpl; [done|].
  pose proof (udp_pass_measurementID W key queryBuf rrtype nameservers st) as H1.
  destruct (udp_pass W key queryBuf rrtype nameservers st) as [st1 returned].
  simpl in H1. destruct returned; [done|]. by rewrite IH.
Qed.

Lemma tcp_pass_measurementID (W : World) (key : string) (queryBuf : list byte)
  (nameservers : list string) (st : State) :
  measurementID (tcp_pass W key queryBuf nameservers st) = measurementID st.
Proof.
  revert st. induction nameservers as [|ns rest IH]; intros st; [done|].
  cbn [tcp_pass].
  assert (measurementID (bump_guarded key st) = measurementID st) as H0
    by (unfold bump_guarded; by destruct (negb _)).
  destruct (tcp_sendDNSQuery W _ ns queryBuf) as [bytes|message].
  - by destruct (negb (JS.truthy_arr _)).
  - by rewrite IH.
Qed.

Lemma run_item_measurementID (W : World) (nameservers : list string)
  (it : WorkItem) (st : State) :
  measurementID (run_item W nameservers it st).1 = measurementID st.
Proof.
  destruct it as [domain|key domain query|key domain query]; simpl.
  - unfold sendUDPWebExtQuery. destruct (dns_resolve W _ domain); simpl; [|done].
    by destruct (JS.bool_loose_eq _ _).
  - unfold sendUDPQuery, encodeUDPQuery. destruct (encode W _); [|done].
    exact (udp_passes_measurementID W key _ _ _ _ (next_draw st)).
  - unfold sendTCPQuery, encodeTCPQuery. destruct (streamEncode W _); [|done].
    exact (tcp_pass_measurementID W key _ _ (next_draw st)).
Qed.

Lemma run_queries_measurementID (W : World) (nameservers : list string)
  (queries : list WorkItem) (st : State) :
  measurementID (run_queries W nameservers queries st).1 = measurementID st.
Proof.
  revert st. induction queries as [|it rest IH]; intros st; simpl; [done|].
  pose proof (run_item_measurementID W nameservers it st) as H1.
  destruct (run_item W nameservers it st) as [st1 [[]|message]]; simpl in H1;
    [by rewrite IH|done].
Qed.

Lemma sendQueries_measurementID (W : World) (nameservers : list string)
  (st : State) :
  measurementID (sendQueries W nameservers st).1 = measurementID st.
Proof.
  unfold sendQueries, shuffleArray.
  destruct (shuffle_loop W _ build_queries (draws st)) as [queries k].
  by rewrite run_queries_measurementID.
Qed.

Lemma readNameservers_measurementID (W : World) (st st1 : State)
  (r : Result (list string)) :
  readNameservers W st = (st1, r) → measurementID st1 = measurementID st.
Proof.
  unfold readNameservers, readNameservers_try.
  destruct (getPlatformInfo W) as [os|message].
  - destruct (String.eqb os "mac").
    + destruct (readNameserversMac W) as [l|m]; [|by intros [= <- _]].
      destruct (length l =? 0)%nat; [by intros [= <- _]|].
      destruct (forallb _ l); by intros [= <- _].
    + destruct (String.eqb os "win"); [|by intros [= <- _]].
      destruct (readNameserversWin W) as [l|m]; [|by intros [= <- _]].
      destruct (length l =? 0)%nat; [by intros [= <- _]|].
      destruct (forallb _ l); by intros [= <- _].
  - by intros [= <- _].
Qed.

(** A run that returns has submitted, as its last ping, the stamped
    payload built from the two maps. *)
Lemma runMeasurement_last_ping (W : World) (captiveStatus : string)
  (st st' : State) :
  runMeasurement W captiveStatus st = (st', Ret tt) →
  last (pings st')
  = Some (<["measurementID" := pval_of_str (measurementID st)]>
            (completed_payload st')).
Proof.
  unfold runMeasurement. rewrite captive_ok_guard.
  destruct (captive_ok captiveStatus); cbn [negb fetchTest]; [|discriminate].
  destruct (readNameservers W _) as [st1 [nameservers|message]] eqn:Hread;
    [|discriminate].
  assert (measurementID st1 = measurementID st) as Hid1.
  { apply readNameservers_measurementID in Hread. exact Hread. }
  destruct (sendQueries W nameservers st1) as [st2 [[]|message]] eqn:Hsweep;
    [|discriminate].
  assert (measurementID st2 = measurementID st1) as Hid2.
  { pose proof (sendQueries_measurementID W nameservers st1) as H.
    by rewrite Hsweep in H. }
  intros [= <-]. rewrite <- Hid1, <- Hid2. apply last_snoc.
Qed.

(** C8 (what the code does). The report that ends a run has exactly the
    fields reason, measurementID, dnsAttempts and dnsData: the reason is
    STUDY_MEASUREMENT_COMPLETED and the two maps are those of the run. *)
Theorem completed_report_fields (W : World) (captiveStatus : string)
  (st st' : State) :
  runMeasurement W captiveStatus st = (st', Ret tt) →
  ∃ p,
    last (pings st') = Some p
    ∧ dom p = ({["reason"; "measurementID"; "dnsAttempts"; "dnsData"]} : gset string)
    ∧ p !! "reason" = Some (PStr STUDY_MEASUREMENT_COMPLETED)
    ∧ p !! "measurementID" = Some (pval_of_str (measurementID st))
    ∧ p !! "dnsAttempts" = Some (PAttempts (dnsAttempts st'))
    ∧ p !! "dnsData" = Some (PData (dnsData st')).
Proof.
  intros Hrun. eexists.
  split; [exact (runMeasurement_last_ping W captiveStatus st st' Hrun)|].
  split; [|by repeat split].
  unfold completed_payload. rewrite !dom_insert_L, dom_singleton_L.
  set_solver.
Qed.

Lemma completed_report_fields_witness :
  ∃ p,
    last (pings (runMeasurement world_ok "not_captive" initial_state).1) = Some p
    ∧ dom p = ({["reason"; "measurementID"; "dnsAttempts"; "dnsData"]} : gset string)
    ∧ p !! "reason" = Some (PStr STUDY_MEASUREMENT_COMPLETED)
    ∧ p !! "measurementID" = Some PUndefined
    ∧ p !! "dnsAttempts"
      = Some (PAttempts
                (dnsAttempts (runMeasurement world_ok "not_captive" initial_state).1))
    ∧ p !! "dnsData"
      = Some (PData
                (dnsData (runMeasurement world_ok "not_captive" initial_state).1)).
Proof.
  apply (completed_report_fields world_ok "not_captive" initial_state).
  apply returned_pair. vm_compute. reflexivity.
Defined.

(** The report of a run in which all collaborators answer has no
    hasErrors field, so its field set is not the nine-field one that the
    claim and the repository's tests give. *)
Lemma completed_report_lacks_fields :
  ∃ p,
    last (pings (runMeasurement world_ok "not_captive" initial_state).1) = Some p
    ∧ is_completed p = true
    ∧ dom p ≠ ({["reason"; "measurementID"; "dnsAttempts"; "dnsData";
                 "dnsQueryErrors"; "dnsQueryInfo"; "hasErrors"; "addonVersion";
                 "apexDomain"]} : gset string).
Proof.
  eexists. split.
  { apply (runMeasurement_last_ping world_ok "not_captive" initial_state).
    apply returned_pair. vm_compute. reflexivity. }
  split; [reflexivity|].
  unfold completed_payload. rewrite !dom_insert_L, dom_singleton_L.
  intros Heq.
  assert ("hasErrors"
          ∈ ({["measurementID"]} ∪ ({["dnsAttempts"]} ∪ ({["dnsData"]}
               ∪ {["reason"]})) : gset string)) as Hin
    by (rewrite Heq; rewrite !elem_of_union, !elem_of_singleton; tauto).
  rewrite !elem_of_union, !elem_of_singleton in Hin.
  intuition discriminate.
Qed.

(** C7 (as the specification has it) fails: when the UDP encoder rejects the
    NEWONE question the run throws, no completed report is among the pings
    and the items queued behind the rejected one never run. *)
Lemma encode_failure_not_recovered :
  let r := runMeasurement world_encode_fails "not_captive" initial_state in
  r.2 = Throw STUDY_ERROR_UDP_ENCODE
  ∧ existsb is_completed (pings r.1) = false
  ∧ attempts_issued "udpRRSIG-U" (trace r.1) = 1%nat
  ∧ attempts_issued "tcpNEWONE" (trace r.1) = 0%nat
  ∧ attempts_issued "udpAWebExt" (trace r.1) = 0%nat
  ∧ dnsAttempts r.1 !! "tcpNEWFOUR" = None.
Proof. vm_compute. by repeat split. Qed.

(** * The shuffle *)

Lemma scaled_draw_range (r : Q) (n : Z) :
  (0 <= r)%Q → (r < 1)%Q → 0 < n →
  0 ≤ Qfloor (r * inject_Z n) < n.
Proof.
  intros Hr0 Hr1 Hn.
  assert (0 <= r * inject_Z n)%Q as Hlo.
  { apply Qmult_le_0_compat; [exact Hr0|].
    change 0%Q with (inject_Z 0). rewrite <- Zle_Qle. lia. }
  assert (r * inject_Z n < inject_Z n)%Q as Hhi.
  { apply Qlt_le_trans with (1 * inject_Z n)%Q.
    - apply Qmult_lt_compat_r; [|exact Hr1].
      change 0%Q with (inject_Z 0). rewrite <- Zlt_Qlt. lia.
    - rewrite Qmult_1_l. apply Qle_refl. }
  split.
  - rewrite <- (Qfloor_Z 0). by apply Qfloor_resp_le.
  - rewrite Zlt_Qlt. eapply Qle_lt_trans; [apply Qfloor_le|exact Hhi].
Qed.

Lemma random_index_lt (W : World) (k n : nat) :
  random_ok W → (0 < n)%nat → (random_index W k n < n)%nat.
Proof.
  intros Hok Hn. unfold random_index. destruct (Hok k) as [H0 H1].
  pose proof (scaled_draw_range (random W k) (Z.of_nat n) H0 H1) as H.
  lia.
Qed.

Lemma swap_length {A : Type} (l : list A) (i j : nat) :
  length (swap l i j) = length l.
Proof.
  unfold swap. destruct (l !! i), (l !! j); by rewrite ?length_insert.
Qed.

Lemma swap_Permutation {A : Type} (l : list A) (i j : nat) :
  (i < length l)%nat → (j < length l)%nat → swap l i j ≡ₚ l.
Proof.
  intros Hi Hj. unfold swap.
  destruct (lookup_lt_is_Some_2 l i Hi) as [x Hx].
  destruct (lookup_lt_is_Some_2 l j Hj) as [y Hy].
  rewrite Hx, Hy. symmetry. apply Permutation_inj.
  split; [by rewrite !length_insert|].
  exists (λ n, if decide (n = i) then j else if decide (n = j) then i else n).
  split.
  - intros a b. repeat case_decide; lia.
  - intros n. destruct (decide (n = i)) as [->|Hni].
    + rewrite list_lookup_insert_eq by (by rewrite length_insert). exact Hx.
    + destruct (decide (n = j)) as [->|Hnj].
      * rewrite list_lookup_insert_ne by done.
        rewrite list_lookup_insert_eq by done. exact Hy.
      * by rewrite !list_lookup_insert_ne by done.
Qed.

Lemma shuffle_loop_spec {A : Type} (W : World) (currentIndex : nat)
  (array : list A) (k : nat) :
  random_ok W → (currentIndex ≤ length array)%nat →
  (shuffle_loop W currentIndex array k).1 ≡ₚ array
  ∧ (shuffle_loop W currentIndex array k).2 = (k + currentIndex)%nat.
Proof.
  intros Hok. revert array k.
  induction currentIndex as [|c IH]; intros array k Hlen; simpl.
  - split; [done|lia].
  - pose proof (random_index_lt W k (S c) Hok ltac:(lia)) as Hr.
    destruct (IH (swap array c (random_index W k (S c))) (S k)) as [Hp Hk].
    { rewrite swap_length. lia. }
    split; [|lia].
    rewrite Hp. apply swap_Permutation; lia.
Qed.

(** X1. With draws in [0, 1) the shuffle returns a permutation of the array
    it was given; it draws once per element and touches nothing else. *)
Theorem shuffleArray_Permutation {A : Type} (W : World) (array : list A)
  (st : State) :
  random_ok W →
  (shuffleArray W array st).1 ≡ₚ array
  ∧ draws (shuffleArray W array st).2 = (draws st + length array)%nat
  ∧ pings (shuffleArray W array st).2 = pings st
  ∧ trace (shuffleArray W array st).2 = trace st
  ∧ dnsData (shuffleArray W array st).2 = dnsData st
  ∧ dnsAttempts (shuffleArray W array st).2 = dnsAttempts st.
Proof.
  intros Hok. unfold shuffleArray.
  destruct (shuffle_loop_spec W (length array) array (draws st) Hok) as [Hp Hk];
    [done|].
  destruct (shuffle_loop W (length array) array (draws st)) as [l k].
  simpl in *. by repeat split.
Qed.

Lemma world_ok_random_ok : random_ok world_ok.
Proof. intros k. split; [discriminate|reflexivity]. Qed.

Lemma shuffleArray_Permutation_witness :
  (shuffleArray world_ok build_queries initial_state).1 ≡ₚ build_queries
  ∧ draws (shuffleArray world_ok build_queries initial_state).2 = 53%nat
  ∧ pings (shuffleArray world_ok build_queries initial_state).2 = []
  ∧ trace (shuffleArray world_ok build_queries initial_state).2 = []
  ∧ dnsData (shuffleArray world_ok build_queries initial_state).2 = ∅
  ∧ dnsAttempts (shuffleArray world_ok build_queries initial_state).2 = ∅.
Proof.
  apply (shuffleArray_Permutation world_ok build_queries initial_state).
  intros k. split; [discriminate|reflexivity].
Defined.

(** X2. With draws in [0, 1) the transaction id is between 0 and 65535. *)
Theorem txid_range (W : World) (st : State) :
  random_ok W → MIN_TXID ≤ txid W st ≤ MAX_TXID.
Proof.
  intros Hok. unfold txid, MIN_TXID, MAX_TXID.
  destruct (Hok (draws st)) as [H0 H1].
  pose proof (scaled_draw_range (random W (draws st)) (65535 - 0 + 1) H0 H1) as H.
  lia.
Qed.

Lemma txid_range_witness : MIN_TXID ≤ txid world_ok initial_state ≤ MAX_TXID.
Proof.
  apply (txid_range world_ok initial_state).
  intros k. split; [discriminate|reflexivity].
Defined.

(** * Headers and questions *)

(** X3. Both encoders build the same header and the same single question:
    the type is "query", the id is the one drawn, the flags have the
    recursion-desired bit (bit 8) set, the checking-disabled bit (bit 4) set
    exactly when asked for, and no other bit. *)
Theorem query_header (domain rrtype : string) (dnssec_ok checking_disabled : bool)
  (noedns0 : option bool) (id : Z) :
  let pu := udpPacket domain rrtype dnssec_ok checking_disabled noedns0 id in
  let pt := tcpPacket domain rrtype dnssec_ok checking_disabled id in
  p_type pu = "query" ∧ p_type pt = "query"
  ∧ p_id pu = id ∧ p_id pt = id
  ∧ questions pu = [mkQuestion rrtype domain]
  ∧ questions pt = [mkQuestion rrtype domain]
  ∧ p_flags pu = p_flags pt
  ∧ ∀ i, Z.testbit (p_flags pu) i
         = (i =? 8) || (checking_disabled && (i =? 4)).
Proof.
  simpl. repeat split; try by destruct dnssec_ok.
  intros i. destruct checking_disabled; simpl.
  - unfold DNS_PACKET.RECURSION_DESIRED, DNS_PACKET.CHECKING_DISABLED.
    rewrite Z.lor_spec, !Z.shiftl_1_l.
    destruct (Z.neg_nonneg_cases i) as [Hneg|Hpos].
    + rewrite !Z.testbit_neg_r by done. simpl. lia.
    + rewrite !Z.pow2_bits_eqb by lia. f_equal; apply Z.eqb_sym.
  - unfold DNS_PACKET.RECURSION_DESIRED. rewrite Z.shiftl_1_l.
    destruct (Z.neg_nonneg_cases i) as [Hneg|Hpos].
    + rewrite Z.testbit_neg_r by done. simpl. lia.
    + rewrite Z.pow2_bits_eqb by lia. rewrite orb_false_r. apply Z.eqb_sym.
Qed.

(** X4. The packet [encodeTCPQuery] encodes carries one OPT record, with
    the DNSSEC-OK bit set and no payload size, exactly when dnssec_ok is
    set; otherwise its additionals are null. *)
Theorem encodeTCPQuery_opt_record (W : World) (domain rrtype : string)
  (dnssec_ok checking_disabled : bool) (st : State) :
  let p := tcpPacket domain rrtype dnssec_ok checking_disabled (txid W st) in
  (encodeTCPQuery W domain rrtype dnssec_ok checking_disabled st).1
  = streamEncode W p
  ∧ draws (encodeTCPQuery W domain rrtype dnssec_ok checking_disabled st).2
    = S (draws st)
  ∧ (if dnssec_ok
     then ∃ a, additionals p = Some [a] ∧ opt_records p = [a]
               ∧ udpPayloadSize a = None ∧ do_bit a = true
     else additionals p = None ∧ has_opt p = false).
Proof.
  split; [reflexivity|]. split; [reflexivity|].
  destruct dnssec_ok; simpl; [eexists; by repeat split|by split].
Qed.

(** * Keys of arbitrary variants *)

Lemma string_app_inj_l (s t1 t2 : string) : s ++ t1 = s ++ t2 → t1 = t2.
Proof.
  induction s as [|a s IH]; [done|].
  change (String a (s ++ t1) = String a (s ++ t2) → t1 = t2).
  intros [= H]. by apply IH.
Qed.

(** X5. Whatever the variants are, catalog or not, a UDP key is never a TCP
    key, and a per-client key is never the shared key of the same variant
    and transport. *)
Theorem computeKey_separates :
  (∀ (a b : Query) (p q : bool), computeKey "udp" a p ≠ computeKey "tcp" b q)
  ∧ (∀ (transport : string) (args : Query),
       computeKey transport args true ≠ computeKey transport args false).
Proof.
  split.
  - intros a b p q. rewrite !computeKey_unfold. unfold computeKey_spec.
    intros H. vm_compute in H. discriminate H.
  - intros transport args. rewrite !computeKey_unfold. unfold computeKey_spec.
    intros H. do 4 apply string_app_inj_l in H.
    destruct (JS.truthy_flag (noedns0 args)); discriminate H.
Qed.

(** * Retry loops as iterated steps *)

Lemma udp_pass_cons (W : World) (key : string) (queryBuf : list byte)
  (rrtype nameserver : string) (rest : list string) (st : State) :
  udp_pass W key queryBuf rrtype (nameserver :: rest) st
  = match udp_sendDNSQuery W (length (trace st)) nameserver queryBuf rrtype with
    | Resolved responseBytes =>
        (success_step bump_plain key nameserver responseBytes st, true)
    | Rejected message =>
        udp_pass W key queryBuf rrtype rest
          (failure_step bump_plain "STUDY_ERROR_UDP" STUDY_ERROR_UDP_MISC key
             nameserver message st)
    end.
Proof. reflexivity. Qed.

Lemma tcp_pass_cons (W : World) (key : string) (queryBuf : list byte)
  (nameserver : string) (rest : list string) (st : State) :
  tcp_pass W key queryBuf (nameserver :: rest) st
  = match tcp_sendDNSQuery W (length (trace (bump_guarded key st))) nameserver
            queryBuf with
    | Resolved responseBytes =>
        success_step bump_guarded key nameserver responseBytes st
    | Rejected message =>
        tcp_pass W key queryBuf rest
          (failure_step bump_guarded "STUDY_ERROR_TCP" STUDY_ERROR_TCP_MISC key
             nameserver message st)
    end.
Proof. reflexivity. Qed.

Lemma counter_only_bump_plain : counter_only bump_plain.
Proof.
  intros key st. unfold bump_plain. simpl. repeat split.
  - intros k Hk. by rewrite lookup_insert_ne.
  - rewrite lookup_insert_eq. by eexists.
Qed.

Lemma counter_only_bump_guarded : counter_only bump_guarded.
Proof.
  intros key st. unfold bump_guarded, bump_plain.
  destruct (negb (JS.truthy_num (dnsAttempts st !! key))); simpl; repeat split.
  - intros k Hk. by rewrite !lookup_insert_ne.
  - rewrite lookup_insert_eq. by eexists.
  - intros k Hk. by rewrite lookup_insert_ne.
  - rewrite lookup_insert_eq. by eexists.
Qed.

(** A relation between states that holds across every step of a loop holds
    across the loop. *)
Section Closure.
Context (R : State → State → Prop).
Hypothesis R_refl : ∀ st, R st st.
Hypothesis R_trans : ∀ a b c, R a b → R b c → R a c.

Lemma udp_pass_closed (W : World) (key : string) (queryBuf : list byte)
  (rrtype : string) :
  (∀ st ns b, R st (success_step bump_plain key ns b st)) →
  (∀ st ns m, R st (failure_step bump_plain "STUDY_ERROR_UDP"
                      STUDY_ERROR_UDP_MISC key ns m st)) →
  ∀ nameservers st, R st (udp_pass W key queryBuf rrtype nameservers st).1.
Proof.
  intros Hs Hf nameservers.
  induction nameservers as [|ns rest IH]; intros st; [apply R_refl|].
  rewrite udp_pass_cons.
  destruct (udp_sendDNSQuery W _ ns queryBuf rrtype) as [b|m]; [apply Hs|].
  eapply R_trans; [apply Hf|apply IH].
Qed.

Lemma udp_passes_closed (W : World) (key : string) (queryBuf : list byte)
  (rrtype : string) :
  (∀ st ns b, R st (success_step bump_plain key ns b st)) →
  (∀ st ns m, R st (failure_step bump_plain "STUDY_ERROR_UDP"
                      STUDY_ERROR_UDP_MISC key ns m st)) →
  ∀ nameservers n st, R st (udp_passes W key queryBuf rrtype nameservers n st).
Proof.
  intros Hs Hf nameservers n.
  induction n as [|n IH]; intros st; [apply R_refl|]. cbn [udp_passes].
  pose proof (udp_pass_closed W key queryBuf rrtype Hs Hf nameservers st) as H1.
  destruct (udp_pass W key queryBuf rrtype nameservers st) as [st1 returned].
  simpl in H1. destruct returned; [exact H1|].
  eapply R_trans; [exact H1|apply IH].
Qed.

Lemma tcp_pass_closed (W : World) (key : string) (queryBuf : list byte) :
  (∀ st ns b, R st (success_step bump_guarded key ns b st)) →
  (∀ st ns m, R st (failure_step bump_guarded "STUDY_ERROR_TCP"
                      STUDY_ERROR_TCP_MISC key ns m st)) →
  ∀ nameservers st, R st (tcp_pass W key queryBuf nameservers st).
Proof.
  intros Hs Hf nameservers.
  induction nameservers as [|ns rest IH]; intros st; [apply R_refl|].
  rewrite tcp_pass_cons.
  destruct (tcp_sendDNSQuery W _ ns queryBuf) as [b|m]; [apply Hs|].
  eapply R_trans; [apply Hf|apply IH].
Qed.

Lemma run_queries_closed (W : World) (nameservers : list string) :
  (∀ it st, R st (run_item W nameservers it st).1) →
  ∀ queries st, R st (run_queries W nameservers queries st).1.
Proof.
  intros Hit queries.
  induction queries as [|it rest IH]; intros st; [apply R_refl|]. simpl.
  pose proof (Hit it st) as H1.
  destruct (run_item W nameservers it st) as [st1 [[]|message]]; simpl in *;
    [|exact H1].
  eapply R_trans; [exact H1|apply IH].
Qed.

End Closure.

(** * What one step does *)

Lemma failures_app (evs1 evs2 : list Event) :
  failures (evs1 ++ evs2) = (failures evs1 + failures evs2)%nat.
Proof. unfold failures. by rewrite filter_app, length_app. Qed.

Lemma reports_refl (tag key : string) (st : State) : reports tag key st st.
Proof.
  exists [], []. unfold extends. rewrite !app_nil_r. by repeat split.
Qed.

Lemma reports_trans (tag key : string) (a b c : State) :
  reports tag key a b → reports tag key b c → reports tag key a c.
Proof.
  intros (evs1 & new1 & [Ht1 Hp1] & Hk1 & Hl1 & He1 & Hs1 & Hm1 & Hd1)
         (evs2 & new2 & [Ht2 Hp2] & Hk2 & Hl2 & He2 & Hs2 & Hm2 & Hd2).
  exists (evs1 ++ evs2)%list, (new1 ++ new2)%list. unfold extends.
  rewrite Ht2, Ht1, Hp2, Hp1, <- !app_assoc, failures_app, length_app.
  rewrite Hm1 in Hs2.
  repeat split; try apply Forall_app; auto; congruence.
Qed.

Lemma error_payload_ping (tag reason key : string) (id : option string)
  (st : State) :
  String.prefix tag reason = true →
  error_ping tag key (<["measurementID" := pval_of_str id]>
                        (error_payload reason key st))
  ∧ stamped id (<["measurementID" := pval_of_str id]>
                  (error_payload reason key st)).
Proof.
  intros Hpre. unfold error_ping, stamped, reason_of, error_payload.
  repeat split; try by eexists.
  by replace ((<["measurementID" := pval_of_str id]>
                (<["errorAttempt" := pval_of_num (dnsAttempts st !! key)]>
                   (<["errorRRTYPE" := PStr key]> {["reason" := PStr reason]})))
              !! "reason") with (Some (PStr reason)).
Qed.

Lemma success_step_reports (bump : string → State → State)
  (tag key ns : string) (b : list byte) (st : State) :
  counter_only bump → reports tag key st (success_step bump key ns b st).
Proof.
  intros Hb. destruct (Hb key st) as (Ht & Hp & Hd & Hm & Hr & _).
  exists [mkEvent key ns (Resolved (JS.Bytes b))], [].
  unfold extends, success_step. rewrite app_nil_r.
  destruct (negb _); simpl; rewrite Ht, Hp, Hm, Hr;
    repeat split; by repeat constructor.
Qed.

Lemma failure_step_reports (bump : string → State → State)
  (tag misc key ns m : string) (st : State) :
  counter_only bump → String.prefix tag misc = true →
  reports tag key st (failure_step bump tag misc key ns m st).
Proof.
  intros Hb Hmisc. destruct (Hb key st) as (Ht & Hp & Hd & Hm & Hr & _).
  eexists [mkEvent key ns (Rejected m)], [_].
  unfold extends, failure_step, sendTelemetry. simpl. rewrite Ht, Hp, Hm, Hr.
  assert (String.prefix tag (if String.prefix tag m then m else misc) = true)
    as Hpre by (by destruct (String.prefix tag m) eqn:E).
  repeat split; try done; repeat constructor;
    by apply (error_payload_ping tag _ key (measurementID st)).
Qed.

Lemma success_step_touches (bump : string → State → State)
  (key ns : string) (b : list byte) (st : State) :
  counter_only bump → touches_only key st (success_step bump key ns b st).
Proof.
  intros Hb k Hk. destruct (Hb key st) as (_ & _ & Hd & _ & _ & Ha & _).
  unfold success_step. destruct (negb _); simpl; rewrite Hd;
    rewrite ?lookup_insert_ne by done; auto.
Qed.

Lemma failure_step_touches (bump : string → State → State)
  (tag misc key ns m : string) (st : State) :
  counter_only bump →
  touches_only key st (failure_step bump tag misc key ns m st).
Proof.
  intros Hb k Hk. destruct (Hb key st) as (_ & _ & Hd & _ & _ & Ha & _).
  unfold failure_step. simpl. rewrite Hd. auto.
Qed.

Lemma success_step_keeps (bump : string → State → State)
  (key ns : string) (b : list byte) (st : State) :
  counter_only bump → keeps_answers st (success_step bump key ns b st).
Proof.
  intros Hb k v Hv. destruct (Hb key st) as (_ & _ & Hd & _).
  unfold success_step. simpl. rewrite Hd.
  destruct (dnsData st !! key) as [a|] eqn:Hkey; simpl; rewrite ?Hd; [done|].
  rewrite lookup_insert_ne; [done|congruence].
Qed.

Lemma failure_step_keeps (bump : string → State → State)
  (tag misc key ns m : string) (st : State) :
  counter_only bump →
  keeps_answers st (failure_step bump tag misc key ns m st).
Proof.
  intros Hb k v Hv. destruct (Hb key st) as (_ & _ & Hd & _).
  unfold failure_step. simpl. by rewrite Hd.
Qed.

(** * What one work item does *)

Lemma udp_passes_reports (W : World) (key : string) (queryBuf : list byte)
  (rrtype : string) (nameservers : list string) (n : nat) (st : State) :
  reports "STUDY_ERROR_UDP" key st
    (udp_passes W key queryBuf rrtype nameservers n st).
Proof.
  apply udp_passes_closed.
  - apply reports_refl.
  - apply reports_trans.
  - intros. apply success_step_reports, counter_only_bump_plain.
  - intros. by apply failure_step_reports; [apply counter_only_bump_plain|].
Qed.

Lemma tcp_pass_reports (W : World) (key : string) (queryBuf : list byte)
  (nameservers : list string) (st : State) :
  reports "STUDY_ERROR_TCP" key st (tcp_pass W key queryBuf nameservers st).
Proof.
  apply tcp_pass_closed.
  - apply reports_refl.
  - apply reports_trans.
  - intros. apply success_step_reports, counter_only_bump_guarded.
  - intros. by apply failure_step_reports; [apply counter_only_bump_guarded|].
Qed.

Lemma webext_reports (W : World) (domain : string) (st : State) :
  reports "STUDY_ERROR_UDP" "udpAWebExt" st (sendUDPWebExtQuery W domain st).1.
Proof.
  unfold sendUDPWebExtQuery.
  destruct (dns_resolve W _ domain) as [addresses|message]; simpl.
  - exists [mkEvent "udpAWebExt" domain (Resolved (JS.Addresses addresses))], [].
    unfold extends. rewrite app_nil_r.
    destruct (JS.bool_loose_eq _ _); simpl; repeat split; by repeat constructor.
  - eexists [mkEvent "udpAWebExt" domain (Rejected message)], [_].
    unfold extends, sendTelemetry. simpl.
    repeat split; try done; repeat constructor;
      by apply (error_payload_ping "STUDY_ERROR_UDP" STUDY_ERROR_UDP_WEBEXT
                  "udpAWebExt" (measurementID st)).
Qed.

(** X6. A work item that returns sent exactly one ping per rejected round
    trip and no other ping; each of them names the item's key in
    errorRRTYPE, carries an errorAttempt, is stamped with the run
    identifier, and has a reason that starts with the tag of the item's
    transport, whatever message the rejection carried. *)
Theorem run_item_reports (W : World) (nameservers : list string)
  (it : WorkItem) (st : State) :
  (run_item W nameservers it st).2 = Ret tt →
  ∃ evs new,
    extends st (run_item W nameservers it st).1 evs new
    ∧ Forall (λ e, ev_key e = item_key it) evs
    ∧ length new = failures evs
    ∧ Forall (error_ping (item_tag it) (item_key it)) new
    ∧ Forall (stamped (measurementID st)) new.
Proof.
  destruct it as [domain|key domain query|key domain query]; simpl.
  - intros _.
    destruct (webext_reports W domain st)
      as (evs & new & Hx & Hk & Hl & He & Hs & _).
    by exists evs, new.
  - unfold sendUDPQuery, encodeUDPQuery.
    destruct (encode W _) as [queryBuf|]; [intros _|discriminate].
    destruct (udp_passes_reports W key queryBuf (rrtype query) nameservers
                RESOLVCONF_ATTEMPTS (next_draw st))
      as (evs & new & Hx & Hk & Hl & He & Hs & _).
    by exists evs, new.
  - unfold sendTCPQuery, encodeTCPQuery.
    destruct (streamEncode W _) as [queryBuf|]; [intros _|discriminate].
    destruct (tcp_pass_reports W key queryBuf nameservers (next_draw st))
      as (evs & new & Hx & Hk & Hl & He & Hs & _).
    by exists evs, new.
Qed.

Lemma run_item_reports_witness :
  ∃ evs new,
    extends initial_state
      (run_item world_udp_retry two_nameservers
         (UDPItem "udpA" APEX_DOMAIN_NAME query_A) initial_state).1 evs new
    ∧ Forall (λ e, ev_key e = "udpA") evs
    ∧ length new = failures evs
    ∧ Forall (error_ping "STUDY_ERROR_UDP" "udpA") new
    ∧ Forall (stamped None) new.
Proof.
  apply (run_item_reports world_udp_retry two_nameservers
           (UDPItem "udpA" APEX_DOMAIN_NAME query_A) initial_state).
  reflexivity.
Defined.

Lemma touches_only_refl (key : string) (st : State) : touches_only key st st.
Proof. by intros k Hk. Qed.

Lemma touches_only_trans (key : string) (a b c : State) :
  touches_only key a b → touches_only key b c → touches_only key a c.
Proof.
  intros H1 H2 k Hk. destruct (H1 k Hk) as [Hd1 Ha1].
  destruct (H2 k Hk) as [Hd2 Ha2]. split; congruence.
Qed.

Lemma run_item_touches_only (W : World) (nameservers : list string)
  (it : WorkItem) (st : State) :
  touches_only (item_key it) st (run_item W nameservers it st).1.
Proof.
  destruct it as [domain|key domain query|key domain query]; simpl.
  - unfold sendUDPWebExtQuery. intros k Hk.
    destruct (dns_resolve W _ domain) as [addresses|message]; simpl.
    + destruct (JS.bool_loose_eq _ _); simpl;
        by rewrite ?lookup_insert_ne by done.
    + by rewrite lookup_insert_ne by done.
  - unfold sendUDPQuery, encodeUDPQuery.
    destruct (encode W _) as [queryBuf|]; [|by intros k Hk].
    apply (touches_only_trans key st (next_draw st)); [by intros k Hk|].
    apply (udp_passes_closed (touches_only key)
             (touches_only_refl key) (touches_only_trans key)
             W key queryBuf (rrtype query)); intros.
    + apply success_step_touches, counter_only_bump_plain.
    + apply failure_step_touches, counter_only_bump_plain.
  - unfold sendTCPQuery, encodeTCPQuery.
    destruct (streamEncode W _) as [queryBuf|]; [|by intros k Hk].
    apply (touches_only_trans key st (next_draw st)); [by intros k Hk|].
    apply (tcp_pass_closed (touches_only key)
             (touches_only_refl key) (touches_only_trans key)
             W key queryBuf); intros.
    + apply success_step_touches, counter_only_bump_guarded.
    + apply failure_step_touches, counter_only_bump_guarded.
Qed.

(** X7. A work item changes [dnsData] and [dnsAttempts] under its own key
    only, whether it returns or throws. *)
Theorem run_item_touches_own_key (W : World) (nameservers : list string)
  (it : WorkItem) (st : State) (k : string) :
  k ≠ item_key it →
  dnsData (run_item W nameservers it st).1 !! k = dnsData st !! k
  ∧ dnsAttempts (run_item W nameservers it st).1 !! k = dnsAttempts st !! k.
Proof.
  intros Hk.
  destruct (run_item_touches_only W nameservers it st k Hk) as [Hd Ha].
  split; [exact Hd|exact Ha].
Qed.

Lemma run_item_touches_own_key_witness :
  dnsData (run_item world_ok two_nameservers
             (TCPItem "tcpA" APEX_DOMAIN_NAME query_A) initial_state).1 !! "udpA"
  = None
  ∧ dnsAttempts (run_item world_ok two_nameservers
                   (TCPItem "tcpA" APEX_DOMAIN_NAME query_A) initial_state).1
      !! "udpA"
    = None.
Proof.
  apply (run_item_touches_own_key world_ok two_nameservers
           (TCPItem "tcpA" APEX_DOMAIN_NAME query_A) initial_state "udpA").
  discriminate.
Defined.

(** X8. On the two socket paths an answer that is stored is never dropped or
    replaced, under any key, whatever the sockets answer afterwards (the
    WebExtensions path is the one that replaces). *)
Theorem socket_item_keeps_answers (W : World) (nameservers : list string)
  (it : WorkItem) (st : State) (k : string) (v : JS.arr) :
  is_socket_item it = true →
  dnsData st !! k = Some v →
  dnsData (run_item W nameservers it st).1 !! k = Some v.
Proof.
  intros Hsock. revert k v.
  change (keeps_answers st (run_item W nameservers it st).1).
  assert (∀ s, keeps_answers s s) as Hrefl by (by intros s k v).
  assert (∀ a b c, keeps_answers a b → keeps_answers b c → keeps_answers a c)
    as Htrans by (intros a b c H1 H2 k v Hv; by apply H2, H1).
  destruct it as [domain|key domain query|key domain query]; simpl;
    [discriminate Hsock| |].
  - unfold sendUDPQuery, encodeUDPQuery.
    destruct (encode W _) as [queryBuf|]; [|by intros k v].
    apply (Htrans st (next_draw st)); [by intros k v|].
    apply (udp_passes_closed keeps_answers Hrefl Htrans
             W key queryBuf (rrtype query)); intros.
    + apply success_step_keeps, counter_only_bump_plain.
    + apply failure_step_keeps, counter_only_bump_plain.
  - unfold sendTCPQuery, encodeTCPQuery.
    destruct (streamEncode W _) as [queryBuf|]; [|by intros k v].
    apply (Htrans st (next_draw st)); [by intros k v|].
    apply (tcp_pass_closed keeps_answers Hrefl Htrans W key queryBuf); intros.
    + apply success_step_keeps, counter_only_bump_guarded.
    + apply failure_step_keeps, counter_only_bump_guarded.
Qed.

Lemma socket_item_keeps_answers_witness :
  let st := (run_item world_ok two_nameservers
               (UDPItem "udpA" APEX_DOMAIN_NAME query_A) initial_state).1 in
  dnsData (run_item world_linux two_nameservers
             (UDPItem "udpA" APEX_DOMAIN_NAME query_A) st).1 !! "udpA"
  = Some (JS.Bytes [x01%byte; x02%byte; x03%byte]).
Proof.
  intros st.
  apply (socket_item_keeps_answers world_linux two_nameservers
           (UDPItem "udpA" APEX_DOMAIN_NAME query_A) st "udpA"
           (JS.Bytes [x01%byte; x02%byte; x03%byte]));
    reflexivity.
Defined.

(** * An item whose round trips are all rejected *)

Lemma failure_step_sizes (bump : string → State → State)
  (tag misc key ns m : string) (st : State) :
  counter_only bump →
  let st' := failure_step bump tag misc key ns m st in
  length (trace st') = S (length (trace st))
  ∧ length (pings st') = S (length (pings st))
  ∧ dnsData st' = dnsData st.
Proof.
  intros Hb. destruct (Hb key st) as (Ht & Hp & Hd & _).
  unfold failure_step. destruct (bump key st). simpl in *. subst.
  rewrite !length_app. simpl. repeat split; lia.
Qed.

Lemma udp_pass_all_rejected (W : World) (key : string) (queryBuf : list byte)
  (rrtype : string) (nameservers : list string) (st : State) :
  (∀ k ns buf rr, ∃ m, udp_sendDNSQuery W k ns buf rr = Rejected m) →
  let r := udp_pass W key queryBuf rrtype nameservers st in
  r.2 = false
  ∧ length (trace r.1) = (length (trace st) + length nameservers)%nat
  ∧ length (pings r.1) = (length (pings st) + length nameservers)%nat
  ∧ dnsData r.1 = dnsData st.
Proof.
  intros Hrej. revert st.
  induction nameservers as [|ns rest IH]; intros st; [simpl; by rewrite !Nat.add_0_r|].
  cbn zeta. rewrite udp_pass_cons.
  destruct (Hrej (length (trace st)) ns queryBuf rrtype) as [m ->].
  destruct (IH (failure_step bump_plain "STUDY_ERROR_UDP" STUDY_ERROR_UDP_MISC
                  key ns m st)) as (Hr & Ht & Hp & Hd).
  rewrite Hr, Ht, Hp, Hd.
  destruct (failure_step_sizes bump_plain "STUDY_ERROR_UDP"
              STUDY_ERROR_UDP_MISC key ns m st counter_only_bump_plain)
    as (Ht0 & Hp0 & Hd0).
  rewrite Ht0, Hp0, Hd0. simpl. repeat split; lia.
Qed.

Lemma tcp_pass_all_rejected (W : World) (key : string) (queryBuf : list byte)
  (nameservers : list string) (st : State) :
  (∀ k ns buf, ∃ m, tcp_sendDNSQuery W k ns buf = Rejected m) →
  let st' := tcp_pass W key queryBuf nameservers st in
  length (trace st') = (length (trace st) + length nameservers)%nat
  ∧ length (pings st') = (length (pings st) + length nameservers)%nat
  ∧ dnsData st' = dnsData st.
Proof.
  intros Hrej. revert st.
  induction nameservers as [|ns rest IH]; intros st; [simpl; by rewrite !Nat.add_0_r|].
  cbn zeta. rewrite tcp_pass_cons.
  destruct (Hrej (length (trace (bump_guarded key st))) ns queryBuf) as [m ->].
  destruct (IH (failure_step bump_guarded "STUDY_ERROR_TCP" STUDY_ERROR_TCP_MISC
                  key ns m st)) as (Ht & Hp & Hd).
  rewrite Ht, Hp, Hd.
  destruct (failure_step_sizes bump_guarded "STUDY_ERROR_TCP"
              STUDY_ERROR_TCP_MISC key ns m st counter_only_bump_guarded)
    as (Ht0 & Hp0 & Hd0).
  rewrite Ht0, Hp0, Hd0. simpl. repeat split; lia.
Qed.

(** X9. When every round trip is rejected, an item whose packet is encoded
    uses its whole budget (one round trip for the baseline, two passes over
    the nameservers for UDP, one pass for TCP), sends as many error pings,
    stores no answer and still returns. *)
Theorem run_item_exhausts_budget (W : World) (nameservers : list string)
  (it : WorkItem) (st : State) :
  all_rejected W →
  item_encodes W it st = true →
  let r := run_item W nameservers it st in
  r.2 = Ret tt
  ∧ length (trace r.1) = (length (trace st) + item_budget nameservers it)%nat
  ∧ length (pings r.1) = (length (pings st) + item_budget nameservers it)%nat
  ∧ dnsData r.1 = dnsData st.
Proof.
  intros (Hweb & Hudp & Htcp).
  destruct it as [domain|key domain query|key domain query]; simpl.
  - intros _. unfold sendUDPWebExtQuery. simpl.
    destruct (Hweb (length (trace st)) domain) as [m ->]. simpl.
    rewrite !length_app. by repeat split.
  - intros [buf Hbuf]%bool_decide_eq_true.
    unfold sendUDPQuery, encodeUDPQuery. rewrite Hbuf.
    unfold RESOLVCONF_ATTEMPTS. cbn [udp_passes fst snd].
    destruct (udp_pass_all_rejected W key buf (rrtype query) nameservers
                (next_draw st) Hudp) as (Hr1 & Ht1 & Hp1 & Hd1).
    destruct (udp_pass W key buf (rrtype query) nameservers (next_draw st))
      as [st1 returned1]. simpl in *. subst returned1.
    destruct (udp_pass_all_rejected W key buf (rrtype query) nameservers
                st1 Hudp) as (Hr2 & Ht2 & Hp2 & Hd2).
    destruct (udp_pass W key buf (rrtype query) nameservers st1)
      as [st2 returned2]. simpl in *. subst returned2.
    repeat split; [lia|lia|congruence].
  - intros [buf Hbuf]%bool_decide_eq_true.
    unfold sendTCPQuery, encodeTCPQuery. rewrite Hbuf. cbn [fst snd].
    destruct (tcp_pass_all_rejected W key buf nameservers (next_draw st) Htcp)
      as (Ht & Hp & Hd).
    by repeat split.
Qed.

Lemma world_all_fail_rejects : all_rejected world_all_fail.
Proof. repeat split; intros; by eexists. Qed.

Lemma run_item_exhausts_budget_witness :
  let r := run_item world_all_fail two_nameservers
             (UDPItem "udpA" APEX_DOMAIN_NAME query_A) initial_state in
  r.2 = Ret tt
  ∧ length (trace r.1) = 4%nat
  ∧ length (pings r.1) = 4%nat
  ∧ dnsData r.1 = ∅.
Proof.
  apply (run_item_exhausts_budget world_all_fail two_nameservers
           (UDPItem "udpA" APEX_DOMAIN_NAME query_A) initial_state).
  - repeat split; intros; by eexists.
  - reflexivity.
Defined.

(** * The whole sweep *)

Lemma attempts_issued_other (key k : string) (evs : list Event) :
  Forall (λ e, ev_key e = key) evs → k ≠ key → attempts_issued k evs = 0%nat.
Proof.
  intros Hall Hk. unfold attempts_issued.
  induction Hall as [|e evs He _ IH]; [reflexivity|].
  rewrite filter_cons_False by congruence. exact IH.
Qed.

Lemma run_item_events (W : World) (nameservers : list string) (it : WorkItem)
  (st : State) :
  ∃ evs,
    trace (run_item W nameservers it st).1 = (trace st ++ evs)%list
    ∧ Forall (λ e, ev_key e = item_key it) evs
    ∧ (length evs ≤ item_budget nameservers it)%nat.
Proof.
  destruct it as [domain|key domain query|key domain query]; simpl.
  - unfold sendUDPWebExtQuery.
    destruct (dns_resolve W _ domain) as [addresses|message]; simpl.
    + eexists [_]. destruct (JS.bool_loose_eq _ _); simpl;
        repeat split; by repeat constructor.
    + eexists [_]. repeat split; by repeat constructor.
  - destruct (sendUDPQuery_events W key domain query nameservers st)
      as (evs & Ht & Hk & Hl & _). by exists evs.
  - destruct (sendTCPQuery_events W key domain query nameservers st)
      as (evs & Ht & Hk & Hl & _). by exists evs.
Qed.

Lemma run_item_attempts (W : World) (nameservers : list string)
  (it : WorkItem) (st : State) (k : string) :
  (attempts_issued k (trace (run_item W nameservers it st).1)
   ≤ attempts_issued k (trace st)
     + (if decide (item_key it = k) then item_budget nameservers it else 0))%nat.
Proof.
  destruct (run_item_events W nameservers it st) as (evs & -> & Hk & Hl).
  rewrite attempts_issued_app. destruct (decide (item_key it = k)) as [<-|Hne].
  - rewrite (attempts_issued_same _ evs Hk). lia.
  - rewrite (attempts_issued_other _ k evs Hk) by congruence. lia.
Qed.

Lemma run_queries_attempts (W : World) (nameservers : list string)
  (queries : list WorkItem) (st : State) (k : string) :
  (attempts_issued k (trace (run_queries W nameservers queries st).1)
   ≤ attempts_issued k (trace st) + key_budget nameservers queries k)%nat.
Proof.
  revert st. induction queries as [|it rest IH]; intros st; simpl; [lia|].
  pose proof (run_item_attempts W nameservers it st k) as H1.
  unfold key_budget in *. simpl.
  destruct (run_item W nameservers it st) as [st1 [[]|message]]; simpl in *.
  - specialize (IH st1). lia.
  - lia.
Qed.

Lemma key_budget_absent (nameservers : list string) (queries : list WorkItem)
  (k : string) :
  k ∉ item_key <$> queries → key_budget nameservers queries k = 0%nat.
Proof.
  unfold key_budget. induction queries as [|it rest IH]; intros Hk; simpl;
    [reflexivity|].
  rewrite fmap_cons, not_elem_of_cons in Hk. destruct Hk as [Hne Hk].
  rewrite decide_False by congruence. by rewrite IH.
Qed.

Lemma key_budget_NoDup (nameservers : list string) (queries : list WorkItem)
  (it : WorkItem) :
  NoDup (item_key <$> queries) → it ∈ queries →
  key_budget nameservers queries (item_key it) = item_budget nameservers it.
Proof.
  induction queries as [|a rest IH]; intros Hnd Hin;
    [by apply elem_of_nil in Hin|].
  rewrite fmap_cons in Hnd. apply NoDup_cons in Hnd as [Hnotin Hnd].
  change (key_budget nameservers (a :: rest) (item_key it))
    with ((if decide (item_key a = item_key it)
           then item_budget nameservers a else 0%nat)
          + key_budget nameservers rest (item_key it))%nat.
  apply elem_of_cons in Hin as [->|Hin].
  - rewrite decide_True by done. rewrite key_budget_absent by done. lia.
  - rewrite decide_False.
    + by rewrite IH.
    + intros Heq. apply Hnotin. rewrite Heq. by apply list_elem_of_fmap_2.
Qed.

(** X10. In a whole sweep each work item's key receives at most the item's
    own budget of round trips (1 for the baseline, twice the number of
    nameservers for a UDP key, the number of nameservers for a TCP key), in
    whatever order the shuffle put the items and whether or not the sweep
    was cut short. *)
Theorem sendQueries_key_budget (W : World) (nameservers : list string)
  (st : State) (it : WorkItem) :
  random_ok W → it ∈ build_queries →
  (attempts_issued (item_key it) (trace (sendQueries W nameservers st).1)
   ≤ attempts_issued (item_key it) (trace st) + item_budget nameservers it)%nat.
Proof.
  intros Hok Hin. unfold sendQueries, shuffleArray.
  destruct (shuffle_loop_spec W (length build_queries) build_queries (draws st)
              Hok) as [Hperm _]; [done|].
  destruct (shuffle_loop W (length build_queries) build_queries (draws st))
    as [queries k]. simpl in Hperm.
  etrans; [apply run_queries_attempts|]. simpl.
  apply Nat.add_le_mono_l.
  rewrite (key_budget_NoDup nameservers queries it); [done| |].
  - rewrite Hperm. apply work_list_keys_NoDup.
  - by rewrite Hperm.
Qed.

Lemma sendQueries_key_budget_witness :
  (attempts_issued "udpA"
     (trace (sendQueries world_udp_retry two_nameservers initial_state).1)
   ≤ 0 + 4)%nat.
Proof.
  apply (sendQueries_key_budget world_udp_retry two_nameservers initial_state
           (UDPItem "udpA" APEX_DOMAIN_NAME query_A)).
  - intros k. split; [discriminate|reflexivity].
  - apply (bool_decide_unpack _). vm_compute. reflexivity.
Defined.

(** * The keys of [dnsAttempts] after a sweep *)

Lemma step_counts_key (bump : string → State → State) (key : string)
  (st st' : State) :
  counter_only bump →
  dnsAttempts st' = dnsAttempts (bump key st) →
  is_Some (dnsAttempts st' !! key).
Proof.
  intros Hb ->. by destruct (Hb key st) as (_ & _ & _ & _ & _ & _ & H).
Qed.

Lemma success_step_counts (bump : string → State → State)
  (key ns : string) (b : list byte) (st : State) :
  counter_only bump →
  is_Some (dnsAttempts (success_step bump key ns b st) !! key).
Proof.
  intros Hb. apply (step_counts_key bump key st _ Hb).
  unfold success_step. by destruct (negb _).
Qed.

Lemma failure_step_counts (bump : string → State → State)
  (tag misc key ns m : string) (st : State) :
  counter_only bump →
  is_Some (dnsAttempts (failure_step bump tag misc key ns m st) !! key).
Proof. intros Hb. by apply (step_counts_key bump key st _ Hb). Qed.

Lemma udp_passes_counts_key (W : World) (key : string) (queryBuf : list byte)
  (rrtype : string) (nameservers : list string) (n : nat) (st : State) :
  is_Some (dnsAttempts st !! key) →
  is_Some (dnsAttempts (udp_passes W key queryBuf rrtype nameservers n st)
             !! key).
Proof.
  revert st.
  apply (udp_passes_closed
           (λ a b, is_Some (dnsAttempts a !! key) →
                   is_Some (dnsAttempts b !! key))); auto.
  - intros st ns b _. apply success_step_counts, counter_only_bump_plain.
  - intros st ns m _. apply failure_step_counts, counter_only_bump_plain.
Qed.

Lemma udp_pass_counts_key (W : World) (key : string) (queryBuf : list byte)
  (rrtype ns : string) (rest : list string) (st : State) :
  is_Some (dnsAttempts (udp_pass W key queryBuf rrtype (ns :: rest) st).1
             !! key).
Proof.
  rewrite udp_pass_cons.
  destruct (udp_sendDNSQuery W _ ns queryBuf rrtype) as [b|m].
  - apply success_step_counts, counter_only_bump_plain.
  - apply (udp_pass_closed
             (λ a b, is_Some (dnsAttempts a !! key) →
                     is_Some (dnsAttempts b !! key))); auto.
    + intros st' ns' b _. apply success_step_counts, counter_only_bump_plain.
    + intros st' ns' m' _. apply failure_step_counts, counter_only_bump_plain.
    + apply failure_step_counts, counter_only_bump_plain.
Qed.

Lemma tcp_pass_counts_key (W : World) (key : string) (queryBuf : list byte)
  (ns : string) (rest : list string) (st : State) :
  is_Some (dnsAttempts (tcp_pass W key queryBuf (ns :: rest) st) !! key).
Proof.
  rewrite tcp_pass_cons.
  destruct (tcp_sendDNSQuery W _ ns queryBuf) as [b|m].
  - apply success_step_counts, counter_only_bump_guarded.
  - apply (tcp_pass_closed
             (λ a b, is_Some (dnsAttempts a !! key) →
                     is_Some (dnsAttempts b !! key))); auto.
    + intros st' ns' b _. apply success_step_counts, counter_only_bump_guarded.
    + intros st' ns' m' _. apply failure_step_counts, counter_only_bump_guarded.
    + apply failure_step_counts, counter_only_bump_guarded.
Qed.

Lemma run_item_counts_key (W : World) (nameservers : list string)
  (it : WorkItem) (st : State) :
  (run_item W nameservers it st).2 = Ret tt → nameservers ≠ [] →
  is_Some (dnsAttempts (run_item W nameservers it st).1 !! item_key it).
Proof.
  intros Hret Hns. destruct nameservers as [|ns rest]; [done|]. clear Hns.
  destruct it as [domain|key domain query|key domain query]; simpl in *.
  - unfold sendUDPWebExtQuery.
    destruct (dns_resolve W _ domain) as [addresses|message]; simpl.
    + destruct (JS.bool_loose_eq _ _); simpl; rewrite lookup_insert_eq;
        by eexists.
    + rewrite lookup_insert_eq. by eexists.
  - unfold sendUDPQuery, encodeUDPQuery in *.
    destruct (encode W _) as [queryBuf|]; [|discriminate Hret].
    unfold RESOLVCONF_ATTEMPTS. cbn [udp_passes fst].
    pose proof (udp_pass_counts_key W key queryBuf (rrtype query) ns rest
                  (next_draw st)) as H1.
    destruct (udp_pass W key queryBuf (rrtype query) (ns :: rest) (next_draw st))
      as [st1 returned]. simpl in H1. destruct returned; [exact H1|].
    by apply (udp_passes_counts_key W key queryBuf (rrtype query) (ns :: rest) 1).
  - unfold sendTCPQuery, encodeTCPQuery in *.
    destruct (streamEncode W _) as [queryBuf|]; [|discriminate Hret].
    apply tcp_pass_counts_key.
Qed.

Lemma run_item_dom (W : World) (nameservers : list string) (it : WorkItem)
  (st : State) :
  (run_item W nameservers it st).2 = Ret tt → nameservers ≠ [] →
  dom (dnsAttempts (run_item W nameservers it st).1)
  = dom (dnsAttempts st) ∪ {[item_key it]}.
Proof.
  intros Hret Hns. apply set_eq. intros k.
  rewrite elem_of_union, !elem_of_dom, elem_of_singleton.
  destruct (decide (k = item_key it)) as [->|Hne].
  - split; [by right|]. intros _. by apply run_item_counts_key.
  - destruct (run_item_touches_only W nameservers it st k Hne) as [_ ->].
    tauto.
Qed.

Lemma run_queries_dom (W : World) (nameservers : list string)
  (queries : list WorkItem) (st : State) :
  (run_queries W nameservers queries st).2 = Ret tt → nameservers ≠ [] →
  dom (dnsAttempts (run_queries W nameservers queries st).1)
  = dom (dnsAttempts st) ∪ list_to_set (item_key <$> queries).
Proof.
  intros Hret Hns. revert st Hret.
  induction queries as [|it rest IH]; intros st Hret; simpl in *.
  - by rewrite union_empty_r_L.
  - pose proof (run_item_dom W nameservers it st) as H1.
    destruct (run_item W nameservers it st) as [st1 [[]|message]];
      simpl in *; [|discriminate Hret].
    rewrite (IH st1 Hret), H1 by done. by rewrite (assoc_L (∪)).
Qed.

(** X11. After a sweep that returned, over a non-empty nameserver list, the
    keys of [dnsAttempts] are the keys it had before together with the keys
    of the whole work list: the set does not depend on the order the
    shuffle chose nor on what the network answered. *)
Theorem sendQueries_attempt_keys (W : World) (nameservers : list string)
  (st : State) :
  random_ok W → nameservers ≠ [] →
  (sendQueries W nameservers st).2 = Ret tt →
  dom (dnsAttempts (sendQueries W nameservers st).1)
  = dom (dnsAttempts st) ∪ list_to_set (item_key <$> build_queries).
Proof.
  intros Hok Hns. unfold sendQueries, shuffleArray.
  destruct (shuffle_loop_spec W (length build_queries) build_queries (draws st)
              Hok) as [Hperm _]; [done|].
  destruct (shuffle_loop W (length build_queries) build_queries (draws st))
    as [queries k]. simpl in Hperm. intros Hret.
  rewrite run_queries_dom by done. simpl. by rewrite Hperm.
Qed.

Lemma sendQueries_attempt_keys_witness :
  dom (dnsAttempts (sendQueries world_udp_retry two_nameservers initial_state).1)
  = dom (dnsAttempts initial_state) ∪ list_to_set (item_key <$> build_queries).
Proof.
  apply (sendQueries_attempt_keys world_udp_retry two_nameservers initial_state).
  - intros k. split; [discriminate|reflexivity].
  - discriminate.
  - vm_compute. reflexivity.
Defined.

(** * The run identifier on every ping *)

Lemma stamps_same (a b : State) :
  measurementID b = measurementID a → pings b = pings a → stamps a b.
Proof.
  intros Hm Hp. split; [exact Hm|]. exists []. by rewrite app_nil_r.
Qed.

Lemma stamps_refl (st : State) : stamps st st.
Proof. by apply stamps_same. Qed.

Lemma stamps_trans (a b c : State) : stamps a b → stamps b c → stamps a c.
Proof.
  intros [Hm1 (new1 & Hp1 & Hs1)] [Hm2 (new2 & Hp2 & Hs2)].
  split; [congruence|]. exists (new1 ++ new2)%list.
  rewrite Hp2, Hp1, <- app_assoc. split; [done|].
  apply Forall_app. split; [done|]. by rewrite <- Hm1.
Qed.

Lemma stamps_sendTelemetry (payload : gmap string pval) (st : State) :
  stamps st (sendTelemetry payload st).
Proof.
  split; [reflexivity|]. eexists [_]. split; [reflexivity|].
  repeat constructor. unfold stamped. by rewrite lookup_insert_eq.
Qed.

Lemma reports_stamps (tag key : string) (a b : State) :
  reports tag key a b → stamps a b.
Proof.
  intros (evs & new & [_ Hp] & _ & _ & _ & Hs & Hm & _).
  split; [exact Hm|]. by exists new.
Qed.

Lemma run_item_stamps (W : World) (nameservers : list string) (it : WorkItem)
  (st : State) :
  stamps st (run_item W nameservers it st).1.
Proof.
  destruct it as [domain|key domain query|key domain query]; simpl.
  - eapply reports_stamps, webext_reports.
  - unfold sendUDPQuery, encodeUDPQuery.
    apply (stamps_trans st (next_draw st)); [by apply stamps_same|].
    destruct (encode W _) as [queryBuf|]; cbn [fst].
    + apply (reports_stamps "STUDY_ERROR_UDP" key), udp_passes_reports.
    + apply stamps_sendTelemetry.
  - unfold sendTCPQuery, encodeTCPQuery.
    apply (stamps_trans st (next_draw st)); [by apply stamps_same|].
    destruct (streamEncode W _) as [queryBuf|]; cbn [fst].
    + apply (reports_stamps "STUDY_ERROR_TCP" key), tcp_pass_reports.
    + apply stamps_sendTelemetry.
Qed.

Lemma sendQueries_stamps (W : World) (nameservers : list string) (st : State) :
  stamps st (sendQueries W nameservers st).1.
Proof.
  unfold sendQueries, shuffleArray.
  destruct (shuffle_loop W _ build_queries (draws st)) as [queries k].
  eapply stamps_trans; [|apply (run_queries_closed stamps stamps_refl stamps_trans)].
  - by apply stamps_same.
  - apply run_item_stamps.
Qed.

Lemma readNameservers_stamps (W : World) (st : State) :
  stamps st (readNameservers W st).1.
Proof.
  unfold readNameservers, readNameservers_try.
  destruct (getPlatformInfo W) as [os|message]; [|apply stamps_sendTelemetry].
  destruct (String.eqb os "mac").
  - destruct (readNameserversMac W) as [l|m]; [|apply stamps_sendTelemetry].
    destruct (length l =? 0)%nat; [apply stamps_sendTelemetry|].
    destruct (forallb _ l); [apply stamps_refl|apply stamps_sendTelemetry].
  - destruct (String.eqb os "win").
    + destruct (readNameserversWin W) as [l|m]; [|apply stamps_sendTelemetry].
      destruct (length l =? 0)%nat; [apply stamps_sendTelemetry|].
      destruct (forallb _ l); [apply stamps_refl|apply stamps_sendTelemetry].
    + eapply stamps_trans; apply stamps_sendTelemetry.
Qed.

Lemma runMeasurement_stamps (W : World) (captiveStatus : string) (st : State) :
  stamps st (runMeasurement W captiveStatus st).1.
Proof.
  unfold runMeasurement.
  destruct (_ && _); [apply stamps_sendTelemetry|]. cbn [fetchTest].
  eapply stamps_trans; [apply (stamps_sendTelemetry {["reason" := PStr STUDY_START]})|].
  pose proof (readNameservers_stamps W
                (sendTelemetry {["reason" := PStr STUDY_START]} st)) as H1.
  destruct (readNameservers W _) as [st1 [nameservers|message]]; simpl in H1;
    [|exact H1].
  eapply stamps_trans; [exact H1|].
  pose proof (sendQueries_stamps W nameservers st1) as H2.
  destruct (sendQueries W nameservers st1) as [st2 [[]|message]]; simpl in H2;
    [|exact H2].
  eapply stamps_trans; [exact H2|]. apply stamps_sendTelemetry.
Qed.

(** X12. Every ping the add-on submits carries the identifier [main]
    generated at start: those [main] sends itself, and those sent by the
    connectivity listener when it runs later, on the state [main] left, with
    whatever status it is given. *)
Theorem main_stamps_every_ping (B : Startup) (W : World) (st : State) :
  let st1 := (main B W st).1 in
  (∃ new, pings st1 = (pings st ++ new)%list
          ∧ Forall (stamped (Some (uuidv4 B))) new)
  ∧ ∀ status,
      ∃ new, pings (listener W status st1).1 = (pings st1 ++ new)%list
             ∧ Forall (stamped (Some (uuidv4 B))) new.
Proof.
  assert (stamps (set_measurementID (uuidv4 B) st) (main B W st).1) as H.
  { unfold main. destruct (negb (canUpload B)); [apply stamps_refl|].
    destruct (getState B) as [captiveStatus|message];
      [|apply stamps_sendTelemetry].
    destruct (_ || _); [|apply stamps_refl].
    pose proof (runMeasurement_stamps W captiveStatus
                  (set_measurementID (uuidv4 B) st)) as H.
    by destruct (runMeasurement W captiveStatus _) as [st2 r]. }
  destruct H as [Hm (new & Hp & Hs)]. cbn zeta. split.
  - by exists new.
  - intros status. unfold listener.
    destruct (runMeasurement_stamps W status (main B W st).1)
      as [_ (new' & Hp' & Hs')].
    exists new'. split; [exact Hp'|]. by rewrite Hm in Hs'.
Qed.

(** * Reading the nameservers *)

Lemma readNameservers_try_state (W : World) (st : State) (nameservers : list string) :
  (readNameservers_try W st).2 = Ret nameservers →
  (readNameservers_try W st).1 = st.
Proof.
  unfold readNameservers_try.
  destruct (getPlatformInfo W) as [os|message]; [|done].
  destruct (String.eqb os "mac"); [by destruct (readNameserversMac W)|].
  destruct (String.eqb os "win"); [by destruct (readNameserversWin W)|done].
Qed.

Lemma readNameservers_available (W : World) (st : State)
  (nameservers : list string) :
  readNameservers W st = (st, Ret nameservers)
  ↔ nameservers_available W nameservers.
Proof.
  unfold nameservers_available, readNameservers, readNameservers_try.
  destruct (getPlatformInfo W) as [os|message];
    [|split; [done|by intros [[[[=] _]|[[=] _]] _]]].
  destruct (String.eqb_spec os "mac") as [->|Hmac].
  - destruct (readNameserversMac W) as [l|m];
      [|split; [done|by intros [[[_ [=]]|[[=] _]] _]]].
    destruct l as [|a l];
      [split; [done|by intros [[[_ [= <-]]|[[=] _]] [Hne _]]]|].
    simpl (length _ =? 0)%nat. cbv iota.
    destruct (forallb (ip_valid W) (a :: l)) eqn:Hv; split.
    + intros [= <-]. repeat split; [by left|done|done].
    + intros [[[_ [= <-]]|[[=] _]] _]. reflexivity.
    + done.
    + intros [[[_ [= <-]]|[[=] _]] [_ Hv']]. congruence.
  - destruct (String.eqb_spec os "win") as [->|Hwin].
    + destruct (readNameserversWin W) as [l|m];
        [|split; [done|by intros [[[[=] _]|[_ [=]]] _]]].
      destruct l as [|a l];
        [split; [done|by intros [[[[=] _]|[_ [= <-]]] [Hne _]]]|].
      simpl (length _ =? 0)%nat. cbv iota.
      destruct (forallb (ip_valid W) (a :: l)) eqn:Hv; split.
      * intros [= <-]. repeat split; [by right|done|done].
      * intros [[[[=] _]|[_ [= <-]]] _]. reflexivity.
      * done.
      * intros [[[[=] _]|[_ [= <-]]] [_ Hv']]. congruence.
    + split; [done|]. intros [[[[= ->] _]|[[= ->] _]] _]; done.
Qed.

Lemma readNameservers_Ret_state (W : World) (st : State)
  (nameservers : list string) :
  (readNameservers W st).2 = Ret nameservers → (readNameservers W st).1 = st.
Proof.
  unfold readNameservers, readNameservers_try.
  destruct (getPlatformInfo W) as [os|m0];
    [destruct (String.eqb os "mac");
       [destruct (readNameserversMac W) as [l|m]
       |destruct (String.eqb os "win");
          [destruct (readNameserversWin W) as [l|m]|]]|];
    try (destruct (length l =? 0)%nat; [|destruct (forallb _ l)]);
    cbn [fst snd]; done.
Qed.

(** X13. [readNameservers] returns a list exactly when the platform is mac or
    win and its reader resolved to that list, the list is not empty and
    every address passes the IP test; it then sends no ping and changes
    nothing. *)
Theorem readNameservers_returns_iff (W : World) (st : State)
  (nameservers : list string) :
  ((readNameservers W st).2 = Ret nameservers
   ↔ nameservers_available W nameservers)
  ∧ ((readNameservers W st).2 = Ret nameservers →
     (readNameservers W st).1 = st).
Proof.
  split; [|apply readNameservers_Ret_state]. split.
  - intros Hret. apply (readNameservers_available W st).
    pose proof (readNameservers_Ret_state W st nameservers Hret) as Hst.
    destruct (readNameservers W st) as [st1 r]. simpl in *. by subst.
  - intros Hav. by apply (readNameservers_available W st) in Hav as ->.
Qed.

Lemma readNameservers_returns_iff_witness :
  ((readNameservers world_ok initial_state).2 = Ret two_nameservers
   ↔ nameservers_available world_ok two_nameservers)
  ∧ ((readNameservers world_ok initial_state).2 = Ret two_nameservers →
     (readNameservers world_ok initial_state).1 = initial_state).
Proof. apply (readNameservers_returns_iff world_ok initial_state). Defined.

(** X14. On a platform that is neither mac nor win the failure is reported
    twice: the error thrown inside the [try] block after the first ping is
    caught by the same function's [catch], which sends a second ping with
    the same reason before it throws again. *)
Theorem readNameservers_unsupported_os (W : World) (st : State) (os : string) :
  getPlatformInfo W = Resolved os → os ≠ "mac" → os ≠ "win" →
  let ping := <["measurementID" := pval_of_str (measurementID st)]>
                {["reason" := PStr STUDY_ERROR_NAMESERVERS_OS_NOT_SUPPORTED]} in
  (readNameservers W st).2 = Throw STUDY_ERROR_NAMESERVERS_OS_NOT_SUPPORTED
  ∧ pings (readNameservers W st).1 = (pings st ++ [ping; ping])%list
  ∧ trace (readNameservers W st).1 = trace st.
Proof.
  intros Hos Hmac Hwin. unfold readNameservers, readNameservers_try.
  rewrite Hos. apply String.eqb_neq in Hmac, Hwin. rewrite Hmac, Hwin.
  simpl. rewrite <- app_assoc. by repeat split.
Qed.

Lemma readNameservers_unsupported_os_witness :
  (readNameservers world_linux initial_state).2
  = Throw STUDY_ERROR_NAMESERVERS_OS_NOT_SUPPORTED
  ∧ pings (readNameservers world_linux initial_state).1
    = [ <["measurementID" := PUndefined]>
          {["reason" := PStr STUDY_ERROR_NAMESERVERS_OS_NOT_SUPPORTED]};
        <["measurementID" := PUndefined]>
          {["reason" := PStr STUDY_ERROR_NAMESERVERS_OS_NOT_SUPPORTED]} ]
  ∧ trace (readNameservers world_linux initial_state).1 = [].
Proof.
  apply (readNameservers_unsupported_os world_linux initial_state "linux");
    [reflexivity|discriminate|discriminate].
Defined.

Lemma readNameservers_throws (W : World) (st : State) (message : string) :
  (readNameservers W st).2 = Throw message →
  String.prefix "STUDY_ERROR_NAMESERVERS" message = true
  ∧ reason_of <$> last (pings (readNameservers W st).1) = Some message
  ∧ trace (readNameservers W st).1 = trace st
  ∧ dnsData (readNameservers W st).1 = dnsData st
  ∧ dnsAttempts (readNameservers W st).1 = dnsAttempts st.
Proof.
  assert (∀ m, String.prefix "STUDY_ERROR_NAMESERVERS"
                 (if String.prefix "STUDY_ERROR_NAMESERVERS" m then m
                  else STUDY_ERROR_NAMESERVERS_MISC) = true) as Hcls.
  { intros m. by destruct (String.prefix "STUDY_ERROR_NAMESERVERS" m) eqn:E. }
  assert (∀ reason s,
            reason_of <$> last (pings (sendTelemetry {["reason" := PStr reason]} s))
            = Some reason) as Hlast.
  { intros reason s. unfold sendTelemetry. simpl. by rewrite last_snoc. }
  unfold readNameservers, readNameservers_try.
  destruct (getPlatformInfo W) as [os|m0];
    [destruct (String.eqb os "mac");
       [destruct (readNameserversMac W) as [l|m]
       |destruct (String.eqb os "win");
          [destruct (readNameserversWin W) as [l|m]|]]|];
    try (destruct (length l =? 0)%nat; [|destruct (forallb _ l)]);
    cbn [fst snd]; try discriminate;
    intros [= <-]; by rewrite Hlast, ?Hcls.
Qed.

(** X15. Whenever [readNameservers] throws, the message it throws starts with
    STUDY_ERROR_NAMESERVERS, whatever the platform calls rejected with, and
    it is the reason of the last ping sent; no round trip is issued. *)
Theorem readNameservers_throws_tagged (W : World) (st : State) (message : string) :
  (readNameservers W st).2 = Throw message →
  String.prefix "STUDY_ERROR_NAMESERVERS" message = true
  ∧ reason_of <$> last (pings (readNameservers W st).1) = Some message
  ∧ trace (readNameservers W st).1 = trace st.
Proof.
  intros Hthrow.
  destruct (readNameservers_throws W st message Hthrow) as (Hp & Hl & Ht & _).
  by repeat split.
Qed.

Lemma readNameservers_throws_tagged_witness :
  String.prefix "STUDY_ERROR_NAMESERVERS" STUDY_ERROR_NAMESERVERS_OS_NOT_SUPPORTED
  = true
  ∧ reason_of <$> last (pings (readNameservers world_linux initial_state).1)
    = Some STUDY_ERROR_NAMESERVERS_OS_NOT_SUPPORTED
  ∧ trace (readNameservers world_linux initial_state).1 = trace initial_state.
Proof.
  apply (readNameservers_throws_tagged world_linux initial_state).
  reflexivity.
Defined.

(** * Round trips of one item *)

(** X16. The round trips a work item adds to the trace are all for its own
    key, are at most its budget (1 for the baseline, twice the number of
    nameservers for UDP, the number of nameservers for TCP), and only the
    last of them can be a success: the item stops at its first answer. *)
Theorem run_item_round_trips (W : World) (nameservers : list string)
  (it : WorkItem) (st : State) :
  ∃ evs,
    trace (run_item W nameservers it st).1 = (trace st ++ evs)%list
    ∧ Forall (λ e, ev_key e = item_key it) evs
    ∧ (length evs ≤ item_budget nameservers it)%nat
    ∧ ∀ i e, evs !! i = Some e → is_success e = true → S i = length evs.
Proof.
  destruct it as [domain|key domain query|key domain query]; simpl.
  - unfold sendUDPWebExtQuery.
    destruct (dns_resolve W _ domain) as [addresses|message]; simpl.
    + exists [mkEvent "udpAWebExt" domain (Resolved (JS.Addresses addresses))].
      split; [by destruct (JS.bool_loose_eq _ _)|].
      split; [by repeat constructor|]. split; [simpl; lia|].
      by intros [|i] e Hi.
    + exists [mkEvent "udpAWebExt" domain (Rejected message)].
      split; [reflexivity|].
      split; [by repeat constructor|]. split; [simpl; lia|].
      by intros [|i] e Hi.
  - destruct (sendUDPQuery_events W key domain query nameservers st)
      as (evs & Ht & Hk & Hl & Hsw).
    exists evs. repeat split; try done.
    intros i e. by apply sweep_events_success_last.
  - destruct (sendTCPQuery_events W key domain query nameservers st)
      as (evs & Ht & Hk & Hl & Hsw).
    exists evs. repeat split; try done.
    intros i e. by apply sweep_events_success_last.
Qed.

(** X17. On the two socket paths [dnsData] keeps holding, under every key,
    the answer of the chronologically first successful round trip issued
    for that key. *)
Theorem socket_item_first_answer_wins (W : World) (nameservers : list string)
  (it : WorkItem) (st : State) :
  is_socket_item it = true →
  data_inv st → data_inv (run_item W nameservers it st).1.
Proof.
  destruct it as [domain|key domain query|key domain query]; simpl;
    intros Hsock Hinv; [discriminate Hsock| |].
  - by apply sendUDPQuery_data_inv.
  - by apply sendTCPQuery_data_inv.
Qed.

Lemma socket_item_first_answer_wins_witness :
  data_inv (run_item world_udp_retry two_nameservers
              (UDPItem "udpA" APEX_DOMAIN_NAME query_A) initial_state).1.
Proof.
  apply (socket_item_first_answer_wins world_udp_retry two_nameservers
           (UDPItem "udpA" APEX_DOMAIN_NAME query_A) initial_state).
  - reflexivity.
  - intros key. reflexivity.
Defined.

(** X18. On the TCP path [dnsAttempts] keeps holding, under every key, the
    number of round trips issued for that key, and no entry for a key that
    had none: the guarded increment starts an unseen key at 1. *)
Theorem tcp_item_counts_exact (W : World) (nameservers : list string)
  (key domain : string) (query : Query) (st : State) :
  counts_inv st →
  counts_inv (run_item W nameservers (TCPItem key domain query) st).1
  ∧ ∀ n, attempts_issued key
           (trace (run_item W nameservers (TCPItem key domain query) st).1)
         = S n →
         dnsAttempts (run_item W nameservers (TCPItem key domain query) st).1
           !! key
         = Some (JS.Num (Z.of_nat (S n))).
Proof.
  intros Hinv. simpl.
  pose proof (sendTCPQuery_counts_inv W key domain query nameservers st Hinv)
    as Hinv'.
  split; [exact Hinv'|]. intros n Hn. by rewrite (Hinv' key), Hn.
Qed.

Lemma tcp_item_counts_exact_witness :
  counts_inv (run_item world_all_fail two_nameservers
                (TCPItem "tcpA" APEX_DOMAIN_NAME query_A) initial_state).1
  ∧ ∀ n, attempts_issued "tcpA"
           (trace (run_item world_all_fail two_nameservers
                     (TCPItem "tcpA" APEX_DOMAIN_NAME query_A) initial_state).1)
         = S n →
         dnsAttempts (run_item world_all_fail two_nameservers
                        (TCPItem "tcpA" APEX_DOMAIN_NAME query_A)
                        initial_state).1 !! "tcpA"
         = Some (JS.Num (Z.of_nat (S n))).
Proof.
  apply (tcp_item_counts_exact world_all_fail two_nameservers "tcpA"
           APEX_DOMAIN_NAME query_A initial_state).
  intros key. reflexivity.
Defined.

(** * The run as a whole *)

Lemma encoders_total_items (W : World) :
  encoders_total W → ∀ it st, item_encodes W it st = true.
Proof.
  intros [Hu Ht] [domain|key domain query|key domain query] st; simpl;
    [reflexivity| |]; by apply bool_decide_eq_true.
Qed.

(** X19. A run whose connectivity status is not one of unlocked_portal,
    not_captive and clear, or whose nameservers cannot be obtained, throws;
    the message thrown is the reason of the last ping sent, no round trip
    is issued and [dnsData] and [dnsAttempts] are left as they were. *)
Theorem runMeasurement_aborts_before_queries (W : World)
  (captiveStatus : string) (st : State) :
  captive_ok captiveStatus = false
  ∨ (∀ nameservers, ¬ nameservers_available W nameservers) →
  ∃ message,
    (runMeasurement W captiveStatus st).2 = Throw message
    ∧ reason_of <$> last (pings (runMeasurement W captiveStatus st).1)
      = Some message
    ∧ trace (runMeasurement W captiveStatus st).1 = trace st
    ∧ dnsData (runMeasurement W captiveStatus st).1 = dnsData st
    ∧ dnsAttempts (runMeasurement W captiveStatus st).1 = dnsAttempts st.
Proof.
  intros Hpre. unfold runMeasurement. rewrite captive_ok_guard.
  destruct (captive_ok captiveStatus) eqn:Hok; cbn [negb fetchTest].
  - destruct Hpre as [Hpre|Hno]; [discriminate Hpre|].
    set (st0 := sendTelemetry {["reason" := PStr STUDY_START]} st).
    destruct (readNameservers W st0) as [st1 [nameservers|message]] eqn:Hread.
    + exfalso. apply (Hno nameservers).
      apply (readNameservers_available W st0).
      pose proof (readNameservers_Ret_state W st0 nameservers) as Hst.
      rewrite Hread in Hst. simpl in Hst. by rewrite Hread, Hst.
    + exists message.
      pose proof (readNameservers_throws W st0 message) as Hthrow.
      rewrite Hread in Hthrow. simpl in Hthrow.
      destruct Hthrow as (_ & Hl & Ht & Hd & Ha); [done|].
      by repeat split.
  - exists STUDY_ERROR_CAPTIVE_PORTAL_FAILED. simpl.
    rewrite last_snoc. by repeat split.
Qed.

Lemma runMeasurement_aborts_before_queries_witness :
  ∃ message,
    (runMeasurement world_ok "locked_portal" initial_state).2 = Throw message
    ∧ reason_of <$> last (pings (runMeasurement world_ok "locked_portal"
                                   initial_state).1)
      = Some message
    ∧ trace (runMeasurement world_ok "locked_portal" initial_state).1
      = trace initial_state
    ∧ dnsData (runMeasurement world_ok "locked_portal" initial_state).1
      = dnsData initial_state
    ∧ dnsAttempts (runMeasurement world_ok "locked_portal" initial_state).1
      = dnsAttempts initial_state.
Proof.
  apply (runMeasurement_aborts_before_queries world_ok "locked_portal"
           initial_state).
  left. reflexivity.
Defined.

(** X20. With an open portal, nameservers available and encoders that accept
    every packet, the run returns and its last ping is the completed
    report, whatever the sockets and the resolver answer and whatever the
    shuffle draws: no rejected round trip aborts a run. *)
Theorem runMeasurement_survives_rejections (W : World) (captiveStatus : string)
  (st : State) (nameservers : list string) :
  captive_ok captiveStatus = true →
  nameservers_available W nameservers →
  encoders_total W →
  (runMeasurement W captiveStatus st).2 = Ret tt
  ∧ ∃ p, last (pings (runMeasurement W captiveStatus st).1) = Some p
         ∧ is_completed p = true.
Proof.
  intros Hok Hav Henc.
  assert ((runMeasurement W captiveStatus st).2 = Ret tt) as Hret.
  { unfold runMeasurement. rewrite captive_ok_guard, Hok. cbn [negb fetchTest].
    apply (readNameservers_available W
             (sendTelemetry {["reason" := PStr STUDY_START]} st)) in Hav as ->.
    unfold sendQueries, shuffleArray.
    destruct (shuffle_loop W _ build_queries _) as [queries k].
    pose proof (run_queries_returns W nameservers queries
                  (mkState (measurementID st) (dnsData st) (dnsAttempts st)
                     (pings (sendTelemetry {["reason" := PStr STUDY_START]} st))
                     (trace st) k) (encoders_total_items W Henc)) as Hq.
    simpl in Hq |- *.
    by destruct (run_queries W nameservers queries _) as [st2 [[]|m]]. }
  split; [exact Hret|]. eexists. split.
  - apply (runMeasurement_last_ping W captiveStatus st).
    by apply returned_pair.
  - reflexivity.
Qed.

Lemma runMeasurement_survives_rejections_witness :
  (runMeasurement world_all_fail "clear" initial_state).2 = Ret tt
  ∧ ∃ p, last (pings (runMeasurement world_all_fail "clear" initial_state).1)
         = Some p
         ∧ is_completed p = true.
Proof.
  apply (runMeasurement_survives_rejections world_all_fail "clear"
           initial_state two_nameservers).
  - reflexivity.
  - repeat split; [by left|discriminate].
  - split; intros p; by eexists.
Defined.
